(** * my-task-app: the Record Store and the Task Session

    A shallow embedding of [src/storage/tasksStorage.ts] (the Record Store)
    and [src/hooks/useTasks.ts] (the Task Session), together with the part of
    the JavaScript runtime they run on: JSON text, AsyncStorage, the clock and
    the random sources.

    Layout:
    - [Json]     JSON text: syntax trees, printer, parser;
    - [Js]       JavaScript values as the program sees them, [JSON.parse] and
                 [JSON.stringify], property reads, array methods;
    - [Runtime], [World], [St]: what the program reads, what it changes, and
                 computations that return or throw;
    - [Store]    tasksStorage.ts;
    - [Session]  useTasks.ts;
    - the notions the statements use, and sample inputs ([Sample]);
    - the round trip of JSON text and of values;
    - the theorems about the store and the session, and their instances at
      the sample inputs. *)

From Stdlib Require Import Ascii DecimalString ZArith Lia.
From Stdlib Require DecimalN DecimalPos DecimalFacts.
From stdpp Require Import gmap strings list fin_maps option.

Set Default Proof Using "Type".
#[local] Set Warnings "-register-all".

(* ===================================================================== *)
(** * JSON text *)
(* ===================================================================== *)

Module Json.

(** Characters the printer and the parser name. They are given by code so
    that no literal has to quote a quote. *)
Definition dquote : ascii := ascii_of_nat 34.
Definition backslash : ascii := ascii_of_nat 92.
Definition slash : ascii := ascii_of_nat 47.

(** The syntax tree of one JSON text. Object members stay in source order
    and may repeat a key: resolving that is [JSON.parse]'s business, below.
    Numbers are the integer literals; a literal with a fraction or an
    exponent is outside the modelled fragment (the program writes none). *)
Inductive tree :=
| TNull
| TBool (b : bool)
| TNum (n : Z)
| TStr (s : string)
| TArr (items : list tree)
| TObj (members : list (string * tree)).

(** ** Printing, without insignificant white space (as [JSON.stringify]
    called with one argument prints). *)

Definition hex_digit (n : N) : ascii :=
  ascii_of_N (if (n <? 10)%N then 48 + n else 87 + n).

Definition escape_char (c : ascii) : string :=
  let n := N_of_ascii c in
  if (n =? 34)%N then String backslash (String dquote EmptyString)
  else if (n =? 92)%N then String backslash (String backslash EmptyString)
  else if (n =? 8)%N then String backslash "b"
  else if (n =? 9)%N then String backslash "t"
  else if (n =? 10)%N then String backslash "n"
  else if (n =? 12)%N then String backslash "f"
  else if (n =? 13)%N then String backslash "r"
  else if (n <? 32)%N then
    String backslash
      ("u00" +:+ String (hex_digit (n / 16)) (String (hex_digit (n mod 16)) EmptyString))
  else String c EmptyString.

Fixpoint escape (s : string) : string :=
  match s with
  | EmptyString => EmptyString
  | String c r => escape_char c +:+ escape r
  end.

Definition quote (s : string) : string :=
  String dquote (escape s +:+ String dquote EmptyString).

Definition print_nat (n : N) : string :=
  NilEmpty.string_of_uint (N.to_uint n).

Definition print_int (z : Z) : string :=
  match z with
  | Zneg p => String "-" (print_nat (Npos p))
  | _ => print_nat (Z.to_N z)
  end.

(** [sep_by sep xs] is [xs.join(sep)]. *)
Fixpoint sep_by (sep : string) (xs : list string) : string :=
  match xs with
  | [] => EmptyString
  | [x] => x
  | x :: rest => x +:+ sep +:+ sep_by sep rest
  end.

Fixpoint print (t : tree) : string :=
  match t with
  | TNull => "null"
  | TBool true => "true"
  | TBool false => "false"
  | TNum n => print_int n
  | TStr s => quote s
  | TArr items => "[" +:+ sep_by "," (map print items) +:+ "]"
  | TObj members =>
      "{" +:+ sep_by "," (map (fun kv => quote (fst kv) +:+ ":" +:+ print (snd kv)) members)
          +:+ "}"
  end.

(** ** Parsing *)

Definition is_ws (c : ascii) : bool :=
  let n := N_of_ascii c in
  ((n =? 32) || (n =? 9) || (n =? 10) || (n =? 13))%N.

Fixpoint skip_ws (s : string) : string :=
  match s with
  | String c r => if is_ws c then skip_ws r else s
  | EmptyString => s
  end.

Definition is_digit (c : ascii) : bool :=
  let n := N_of_ascii c in ((48 <=? n) && (n <=? 57))%N.

Definition hex_val (c : ascii) : option N :=
  let n := N_of_ascii c in
  if ((48 <=? n) && (n <=? 57))%N then Some (n - 48)%N
  else if ((97 <=? n) && (n <=? 102))%N then Some (n - 87)%N
  else if ((65 <=? n) && (n <=? 70))%N then Some (n - 55)%N
  else None.

(** [\uXXXX]: the escapes of the ASCII range are decoded; one that names a
    code unit from 128 on is outside the modelled fragment. *)
Definition unicode_escape (h1 h2 h3 h4 : ascii) : option ascii :=
  a ← hex_val h1; b ← hex_val h2; c ← hex_val h3; d ← hex_val h4;
  let code := (((a * 16 + b) * 16 + c) * 16 + d)%N in
  if (code <? 128)%N then Some (ascii_of_N code) else None.

Definition simple_escape (e : ascii) : option ascii :=
  let n := N_of_ascii e in
  if (n =? 34)%N then Some dquote
  else if (n =? 92)%N then Some backslash
  else if (n =? 47)%N then Some slash
  else if (n =? 98)%N then Some (ascii_of_nat 8)
  else if (n =? 102)%N then Some (ascii_of_nat 12)
  else if (n =? 110)%N then Some (ascii_of_nat 10)
  else if (n =? 114)%N then Some (ascii_of_nat 13)
  else if (n =? 116)%N then Some (ascii_of_nat 9)
  else None.

(** The characters of a string literal, from just after its opening quote
    up to and including its closing quote. *)
Fixpoint parse_chars (s : string) : option (string * string) :=
  match s with
  | EmptyString => None
  | String c r =>
      let n := N_of_ascii c in
      if (n =? 34)%N then Some (EmptyString, r)
      else if (n =? 92)%N then
        match r with
        | EmptyString => None
        | String e r' =>
            if (N_of_ascii e =? 117)%N then
              match r' with
              | String h1 (String h2 (String h3 (String h4 r''))) =>
                  x ← unicode_escape h1 h2 h3 h4;
                  p ← parse_chars r'';
                  Some (String x (fst p), snd p)
              | _ => None
              end
            else
              x ← simple_escape e;
              p ← parse_chars r';
              Some (String x (fst p), snd p)
        end
      else if (n <? 32)%N then None
      else p ← parse_chars r; Some (String c (fst p), snd p)
  end.

(** The longest prefix of digits, and what follows it. *)
Fixpoint span_digits (s : string) : string * string :=
  match s with
  | String c r =>
      if is_digit c then let p := span_digits r in (String c (fst p), snd p)
      else (EmptyString, s)
  | EmptyString => (EmptyString, EmptyString)
  end.

Definition starts_number_tail (s : string) : bool :=
  match s with
  | String c _ =>
      let n := N_of_ascii c in ((n =? 46) || (n =? 101) || (n =? 69))%N
  | EmptyString => false
  end.

(** An unsigned integer literal: digits, no leading zero unless it is the
    lone digit, no fraction or exponent after it. *)
Definition parse_nat (s : string) : option (N * string) :=
  let p := span_digits s in
  match fst p with
  | EmptyString => None
  | String c ds =>
      if (N_of_ascii c =? 48)%N && negb (String.eqb ds EmptyString) then None
      else if starts_number_tail (snd p) then None
      else d ← NilEmpty.uint_of_string (fst p); Some (N.of_uint d, snd p)
  end.

(** [expect lit s] strips the literal [lit] off the front of [s]. *)
Fixpoint expect (lit s : string) : option string :=
  match lit, s with
  | EmptyString, _ => Some s
  | String a l, String b r => if Ascii.eqb a b then expect l r else None
  | String _ _, EmptyString => None
  end.

Fixpoint parse_value (fuel : nat) (s : string) : option (tree * string) :=
  match fuel with
  | O => None
  | S fuel =>
      match skip_ws s with
      | EmptyString => None
      | String c r =>
          let n := N_of_ascii c in
          if (n =? 110)%N then r' ← expect "ull" r; Some (TNull, r')
          else if (n =? 116)%N then r' ← expect "rue" r; Some (TBool true, r')
          else if (n =? 102)%N then r' ← expect "alse" r; Some (TBool false, r')
          else if (n =? 34)%N then p ← parse_chars r; Some (TStr (fst p), snd p)
          else if (n =? 45)%N then p ← parse_nat r; Some (TNum (- Z.of_N (fst p)), snd p)
          else if is_digit c then
            p ← parse_nat (String c r); Some (TNum (Z.of_N (fst p)), snd p)
          else if (n =? 91)%N then
            match skip_ws r with
            | String c' r' =>
                if (N_of_ascii c' =? 93)%N then Some (TArr [], r')
                else p ← parse_items fuel r; Some (TArr (fst p), snd p)
            | EmptyString => None
            end
          else if (n =? 123)%N then
            match skip_ws r with
            | String c' r' =>
                if (N_of_ascii c' =? 125)%N then Some (TObj [], r')
                else p ← parse_members fuel r; Some (TObj (fst p), snd p)
            | EmptyString => None
            end
          else None
      end
  end
with parse_items (fuel : nat) (s : string) : option (list tree * string) :=
  match fuel with
  | O => None
  | S fuel =>
      p ← parse_value fuel s;
      match skip_ws (snd p) with
      | String c r =>
          if (N_of_ascii c =? 44)%N then
            q ← parse_items fuel r; Some (fst p :: fst q, snd q)
          else if (N_of_ascii c =? 93)%N then Some ([fst p], r)
          else None
      | EmptyString => None
      end
  end
with parse_members (fuel : nat) (s : string) : option (list (string * tree) * string) :=
  match fuel with
  | O => None
  | S fuel =>
      match skip_ws s with
      | String c r =>
          if (N_of_ascii c =? 34)%N then
            k ← parse_chars r;
            match skip_ws (snd k) with
            | String c1 r1 =>
                if (N_of_ascii c1 =? 58)%N then
                  p ← parse_value fuel r1;
                  match skip_ws (snd p) with
                  | String c2 r2 =>
                      if (N_of_ascii c2 =? 44)%N then
                        q ← parse_members fuel r2;
                        Some ((fst k, fst p) :: fst q, snd q)
                      else if (N_of_ascii c2 =? 125)%N then Some ([(fst k, fst p)], r2)
                      else None
                  | EmptyString => None
                  end
                else None
            | EmptyString => None
            end
          else None
      | EmptyString => None
      end
  end.

(** A whole text: one value, then nothing but white space. Every call of
    the parser eats a character before it recurses, so the length of the
    text is fuel enough. *)
Definition parse (s : string) : option tree :=
  p ← parse_value (S (String.length s)) s;
  match skip_ws (snd p) with
  | EmptyString => Some (fst p)
  | String _ _ => None
  end.

End Json.

(* ===================================================================== *)
(** * JavaScript values *)
(* ===================================================================== *)

Module Js.

(** The values the program handles: what [JSON.parse] can return. An object
    is a finite map from property names to values. [undefined] is not a
    value of this type: where JavaScript has [undefined] the model has
    [None : option jsval], and a property whose value is [undefined] is a
    property the map does not have. The program cannot tell the two apart:
    it only reads properties ([o.k] is [undefined] either way), spreads
    objects and hands them to [JSON.stringify], which skips such properties. *)
Inductive jsval :=
| JNull
| JBool (b : bool)
| JNum (n : Z)
| JStr (s : string)
| JArr (items : list jsval)
| JObj (props : gmap string jsval).

Inductive js_error :=
| SyntaxError (message : string)
| TypeError (message : string)
| Error (message : string).

(** [e?.message]. *)
Definition message (e : js_error) : option string :=
  match e with SyntaxError m | TypeError m | Error m => Some m end.

(** The outcome of an evaluation that may throw. *)
Inductive result (A : Type) :=
| Ok (a : A)
| Throw (e : js_error).
Arguments Ok {A} a.
Arguments Throw {A} e.

Definition result_map {A B} (f : A -> B) (r : result A) : result B :=
  match r with Ok a => Ok (f a) | Throw e => Throw e end.

(** ** [JSON.parse] and [JSON.stringify] *)

(** A repeated key keeps its last value, as in [JSON.parse]. *)
Fixpoint of_tree (t : Json.tree) : jsval :=
  match t with
  | Json.TNull => JNull
  | Json.TBool b => JBool b
  | Json.TNum n => JNum n
  | Json.TStr s => JStr s
  | Json.TArr items => JArr (map of_tree items)
  | Json.TObj members =>
      JObj (foldl (fun o kv => <[fst kv := of_tree (snd kv)]> o) ∅ members)
  end.

Fixpoint to_tree (v : jsval) : Json.tree :=
  match v with
  | JNull => Json.TNull
  | JBool b => Json.TBool b
  | JNum n => Json.TNum n
  | JStr s => Json.TStr s
  | JArr items => Json.TArr (map to_tree items)
  | JObj props => Json.TObj (map_to_list (to_tree <$> props))
  end.

(** [JSON.parse] throws a [SyntaxError] on a text that is not JSON. On the
    fragment [Json] models (integer literals, escapes of the ASCII range,
    strings as the bytes of their UTF-8 form) this is the built-in; the
    texts the program itself writes are in the fragment. *)
Definition JSON_parse (text : string) : result jsval :=
  match Json.parse text with
  | Some t => Ok (of_tree t)
  | None => Throw (SyntaxError "Unexpected token")
  end.

(** [JSON.stringify(v)] for an array or an object [v]. The order in which
    the members of an object are printed is the map's, not the insertion
    order of the runtime: it shows in the text only, and parsing forgets
    it. *)
Definition JSON_stringify (v : jsval) : string := Json.print (to_tree v).

(** ** Operators *)

(** [v.k], for the property names the program reads ([id] and [done]):
    reading a property of [null] throws; a number, a boolean, a string or
    an array that came out of [JSON.parse] has no such property. *)
Definition get (v : jsval) (k : string) : result (option jsval) :=
  match v with
  | JNull => Throw (TypeError "Cannot read properties of null")
  | JObj props => Ok (props !! k)
  | _ => Ok None
  end.

(** [x === s] for a string [s]. *)
Definition strict_eq_string (x : option jsval) (s : string) : bool :=
  match x with
  | Some (JStr s') => String.eqb s' s
  | _ => false
  end.

(** Truthiness of [x]. *)
Definition truthy (x : option jsval) : bool :=
  match x with
  | None | Some JNull => false
  | Some (JBool b) => b
  | Some (JNum n) => negb (n =? 0)%Z
  | Some (JStr s) => negb (String.eqb s EmptyString)
  | Some (JArr _) | Some (JObj _) => true
  end.

Definition Array_isArray (v : jsval) : bool :=
  match v with JArr _ => true | _ => false end.

(** The elements of an array, as a list. *)
Definition elements (v : jsval) : list jsval :=
  match v with JArr items => items | _ => [] end.

(** [o.k = x]; storing [undefined] leaves [o] without the property. *)
Definition set_prop (k : string) (x : option jsval) (o : gmap string jsval)
  : gmap string jsval :=
  match x with
  | Some v => <[k := v]> o
  | None => delete k o
  end.

(** An object literal [{k1: x1, ..., kn: xn}]. *)
Definition object_literal (props : list (string * option jsval)) : jsval :=
  JObj (foldl (fun o kx => set_prop (fst kx) (snd kx) o) ∅ props).

(** The own properties [{...v}] copies. It is applied to objects only (in
    [update], to a [t] that passed [t.id === id]). *)
Definition own_props (v : jsval) : gmap string jsval :=
  match v with JObj props => props | _ => ∅ end.

(** [xs.filter(f)] and [xs.find(f)] for a callback that may throw. *)
Fixpoint filter_cb {A} (f : A -> result bool) (xs : list A) : result (list A) :=
  match xs with
  | [] => Ok []
  | x :: rest =>
      match f x with
      | Throw e => Throw e
      | Ok keep =>
          match filter_cb f rest with
          | Throw e => Throw e
          | Ok rest' => Ok (if keep then x :: rest' else rest')
          end
      end
  end.

Fixpoint find_cb {A} (f : A -> result bool) (xs : list A) : result (option A) :=
  match xs with
  | [] => Ok None
  | x :: rest =>
      match f x with
      | Throw e => Throw e
      | Ok true => Ok (Some x)
      | Ok false => find_cb f rest
      end
  end.

(** [xs.map(f)] for a callback that may throw. *)
Fixpoint map_cb {A B} (f : A -> result B) (xs : list A) : result (list B) :=
  match xs with
  | [] => Ok []
  | x :: rest =>
      match f x with
      | Throw e => Throw e
      | Ok y => result_map (cons y) (map_cb f rest)
      end
  end.

(** ** Number formatting *)

(** The digit [d] of [Number.prototype.toString(radix)]: 0-9 then a-z. *)
Definition digit_char (d : N) : ascii :=
  ascii_of_N (if (d <? 10)%N then 48 + d else 87 + d).

Fixpoint to_radix (radix : N) (fuel : nat) (n : N) (acc : string) : string :=
  match fuel with
  | O => acc
  | S fuel =>
      let acc' := String (digit_char (n mod radix)) acc in
      if (n / radix =? 0)%N then acc' else to_radix radix fuel (n / radix) acc'
  end.

(** [n.toString(radix)] for a natural number [n]; it has at most as many
    digits as [n] has bits. *)
Definition Number_toString (radix : N) (n : N) : string :=
  to_radix radix (S (N.size_nat n)) n EmptyString.

(** [s.padStart(2, '0')]. *)
Definition padStart2 (s : string) : string :=
  match s with
  | EmptyString => "00"
  | String c EmptyString => String "0" (String c EmptyString)
  | _ => s
  end.

(** [s.slice(2)]. *)
Definition slice2 (s : string) : string :=
  match s with
  | String _ (String _ r) => r
  | _ => EmptyString
  end.

End Js.

Import Js.

(* ===================================================================== *)
(** * The world the program runs in *)
(* ===================================================================== *)

(** What [(globalThis.crypto || globalThis.nativeCrypto)?.getRandomValues]
    finds. *)
Inductive crypto_env :=
| NoCrypto
    (** neither object exists, or the one that does has no
        [getRandomValues]: the optional chain yields [undefined] *)
| CryptoThrows
    (** [getRandomValues] exists and throws *)
| Crypto (draw : nat -> nat -> Byte.byte)
    (** [getRandomValues] fills the array: called at instant [n], it stores
        [draw n i] at index [i] *).

(** The sources the program reads but does not control. Each is a function
    of the instant at which it is read. *)
Record Runtime := {
  crypto : crypto_env;
  clock_iso : nat -> string;      (** [new Date().toISOString()] *)
  clock_ms : nat -> N;            (** [Date.now()] *)
  random36 : nat -> string        (** [Math.random().toString(36)] *)
}.

(** The state the program changes: the AsyncStorage key-value store, and
    the instant, which advances with every read of a source. AsyncStorage
    itself is taken to be available: its calls do not reject. *)
Record World := {
  disk : gmap string string;
  tick : nat
}.

(** Computations over a state [S] that return or throw. *)
Definition St (S A : Type) : Type := S -> result A * S.

Definition ret {S A} (a : A) : St S A := fun s => (Ok a, s).

Definition throw {S A} (e : js_error) : St S A := fun s => (Throw e, s).

Definition bind {S A B} (m : St S A) (k : A -> St S B) : St S B :=
  fun s =>
    match m s with
    | (Ok a, s') => k a s'
    | (Throw e, s') => (Throw e, s')
    end.

Definition lift {S A} (r : result A) : St S A := fun s => (r, s).

(** [try { body } catch (e) { handler e }]. *)
Definition try_catch {S A} (body : St S A) (handler : js_error -> St S A) : St S A :=
  fun s =>
    match body s with
    | (Ok a, s') => (Ok a, s')
    | (Throw e, s') => handler e s'
    end.

(** [try { body } finally { cleanup }]. *)
Definition try_finally {S A} (body : St S A) (cleanup : St S unit) : St S A :=
  fun s =>
    match body s with
    | (r, s') =>
        match cleanup s' with
        | (Ok _, s'') => (r, s'')
        | (Throw e, s'') => (Throw e, s'')
        end
    end.

Notation "'let*' x ':=' m 'in' k" := (bind m (fun x => k))
  (at level 10, x name, m at level 100, k at level 200).

Section Environment.

Variable rt : Runtime.

Definition advance (w : World) : World :=
  {| disk := disk w; tick := S (tick w) |}.

Definition new_Date_toISOString : St World string :=
  fun w => (Ok (clock_iso rt (tick w)), advance w).

Definition Date_now : St World N :=
  fun w => (Ok (clock_ms rt (tick w)), advance w).

Definition Math_random_toString36 : St World string :=
  fun w => (Ok (random36 rt (tick w)), advance w).

(** ** AsyncStorage *)

Definition getItem (key : string) : St World (option string) :=
  fun w => (Ok (disk w !! key), w).

Definition setItem (key value : string) : St World unit :=
  fun w => (Ok tt, {| disk := <[key := value]> (disk w); tick := tick w |}).

Definition removeItem (key : string) : St World unit :=
  fun w => (Ok tt, {| disk := delete key (disk w); tick := tick w |}).

End Environment.

(* ===================================================================== *)
(** * The Record Store: src/storage/tasksStorage.ts *)
(* ===================================================================== *)

Module Store.

(** The argument of [create]: [Omit<Task, 'id' | 'createdAt' | 'updatedAt'>].
    [description] is optional; [done] is read through [?? false], so it is
    optional here too. *)
Record TaskInput := {
  title : string;
  description : option string;
  done : option bool
}.

(** One optional property of a [Partial<...>] argument: the key is missing,
    or it is given, possibly with the value [undefined]. *)
Inductive field (A : Type) :=
| Missing
| Given (x : option A).
Arguments Missing {A}.
Arguments Given {A} x.

(** The argument of [update]: [Partial<Omit<Task, 'id' | 'createdAt'>>]. *)
Record TaskPatch := {
  p_title : field string;
  p_description : field string;
  p_updatedAt : field string;
  p_done : field bool
}.

(** Spreading one property of the patch, and the whole patch, over [o]. *)
Definition spread_field {A} (key : string) (inj : A -> jsval) (f : field A)
    (o : gmap string jsval) : gmap string jsval :=
  match f with
  | Missing => o
  | Given x => set_prop key (inj <$> x) o
  end.

Definition spread_patch (partial : TaskPatch) (o : gmap string jsval)
  : gmap string jsval :=
  spread_field "done" JBool (p_done partial)
    (spread_field "updatedAt" JStr (p_updatedAt partial)
       (spread_field "description" JStr (p_description partial)
          (spread_field "title" JStr (p_title partial) o))).

Definition STORAGE_KEY : string := "@mycrud/tasks".

(** [t.id === id] and [t.id !== id]. *)
Definition id_is (id : string) (t : jsval) : result bool :=
  result_map (fun x => strict_eq_string x id) (get t "id").

Definition id_is_not (id : string) (t : jsval) : result bool :=
  result_map (fun x => negb (strict_eq_string x id)) (get t "id").

Section WithRuntime.

Variable rt : Runtime.

Definition getAll : St World (list jsval) :=
  let* raw := getItem STORAGE_KEY in
  match raw with
  | None => ret []
  | Some raw =>
      if String.eqb raw EmptyString then ret []
      else
        try_catch
          (let* parsed := lift (JSON_parse raw) in
           ret (if Array_isArray parsed then elements parsed else []))
          (fun _ => ret [])
  end.

Definition saveAll (tasks : list jsval) : St World unit :=
  setItem STORAGE_KEY (JSON_stringify (JArr tasks)).

(** The sixteen bytes of [new Uint8Array(16)] after the optional call of
    [getRandomValues] on them. *)
Definition random_bytes : St World (list Byte.byte) :=
  match crypto rt with
  | NoCrypto => ret (replicate 16 Byte.x00)
  | CryptoThrows => throw (Error "crypto.getRandomValues() not supported")
  | Crypto draw =>
      fun w => (Ok (map (draw (tick w)) (seq 0 16)), advance w)
  end.

Definition byte_hex (b : Byte.byte) : string :=
  padStart2 (Number_toString 16 (Byte.to_N b)).

Definition cryptoRandomId : St World string :=
  try_catch
    (let* bytes := random_bytes in
     ret (Json.sep_by EmptyString (map byte_hex bytes)))
    (fun _ =>
       let* r := Math_random_toString36 rt in
       let* d := Date_now rt in
       ret (slice2 r +:+ Number_toString 36 d)).

Definition create (task : TaskInput) : St World jsval :=
  let* tasks := getAll in
  let* now := new_Date_toISOString rt in
  let* id := cryptoRandomId in
  let newTask :=
    object_literal
      [("id", Some (JStr id));
       ("title", Some (JStr (title task)));
       ("description", JStr <$> description task);
       ("createdAt", Some (JStr now));
       ("updatedAt", Some (JStr now));
       ("done", Some (JBool (default false (done task))))] in
  let updated := newTask :: tasks in
  let* _ := saveAll updated in
  ret newTask.

Definition readAll : St World (list jsval) := getAll.

Definition readById (id : string) : St World (option jsval) :=
  let* tasks := getAll in
  lift (find_cb (id_is id) tasks).

(** The callback of [tasks.map] in [update], run over the whole array. It
    assigns the captured variable [updatedTask], threaded here as an
    argument and returned with the mapped array. *)
Fixpoint update_each (id : string) (partial : TaskPatch) (tasks : list jsval)
    (updatedTask : option jsval) : St World (list jsval * option jsval) :=
  match tasks with
  | [] => ret ([], updatedTask)
  | t :: rest =>
      let* hit := lift (id_is id t) in
      if hit then
        let* now := new_Date_toISOString rt in
        let t' :=
          JObj (set_prop "updatedAt" (Some (JStr now))
                  (spread_patch partial (own_props t))) in
        let* r := update_each id partial rest (Some t') in
        ret (t' :: fst r, snd r)
      else
        let* r := update_each id partial rest updatedTask in
        ret (t :: fst r, snd r)
  end.

Definition update (id : string) (partial : TaskPatch) : St World (option jsval) :=
  let* tasks := getAll in
  let* r := update_each id partial tasks None in
  let updated := fst r in
  let updatedTask := snd r in
  let* _ := saveAll updated in
  ret updatedTask.

Definition remove (id : string) : St World unit :=
  let* tasks := getAll in
  let* filtered := lift (filter_cb (id_is_not id) tasks) in
  saveAll filtered.

Definition clearAll : St World unit := removeItem STORAGE_KEY.

End WithRuntime.

End Store.

(* ===================================================================== *)
(** * The Task Session: src/hooks/useTasks.ts *)
(* ===================================================================== *)

Module Session.

(** The three [useState] cells. *)
Record State := {
  tasks : list jsval;
  loading : bool;
  error : option string
}.

Definition initial : State :=
  {| tasks := []; loading := true; error := None |}.

(** The hook's callbacks run over the world and the cells. *)
Record App := {
  world : World;
  session : State
}.

Definition on_world {A} (m : St World A) : St App A :=
  fun a =>
    match m (world a) with
    | (r, w) => (r, {| world := w; session := session a |})
    end.

(** [setTasks(updater)]. An updater that throws leaves the cell as it
    was. *)
Definition setTasks (updater : list jsval -> result (list jsval)) : St App unit :=
  fun a =>
    match updater (tasks (session a)) with
    | Ok ts =>
        (Ok tt, {| world := world a;
                   session := {| tasks := ts;
                                 loading := loading (session a);
                                 error := error (session a) |} |})
    | Throw e => (Throw e, a)
    end.

Definition setLoading (b : bool) : St App unit :=
  fun a =>
    (Ok tt, {| world := world a;
               session := {| tasks := tasks (session a);
                             loading := b;
                             error := error (session a) |} |}).

Definition setError (e : option string) : St App unit :=
  fun a =>
    (Ok tt, {| world := world a;
               session := {| tasks := tasks (session a);
                             loading := loading (session a);
                             error := e |} |}).

Record Stats := {
  total : Z;
  done : Z;
  pending : Z
}.

(** The [useMemo] body. *)
Definition stats (tasks : list jsval) : result Stats :=
  let total := Z.of_nat (length tasks) in
  match filter_cb (fun t => result_map truthy (get t "done")) tasks with
  | Throw e => Throw e
  | Ok finished =>
      let done := Z.of_nat (length finished) in
      Ok {| total := total; done := done; pending := total - done |}
  end.

Section WithRuntime.

Variable rt : Runtime.

Definition load : St App unit :=
  let* _ := setLoading true in
  let* _ := setError None in
  try_finally
    (try_catch
       (let* data := on_world Store.readAll in
        setTasks (fun _ => Ok data))
       (fun e => setError (Some (default "Erro ao carregar" (message e)))))
    (setLoading false).

Definition createTask (input : Store.TaskInput) : St App unit :=
  let* t := on_world (Store.create rt input) in
  setTasks (fun prev => Ok (t :: prev)).

Definition updateTask (id : string) (partial : Store.TaskPatch) : St App unit :=
  let* t := on_world (Store.update rt id partial) in
  match t with
  | Some t =>
      setTasks
        (map_cb (fun p => result_map (fun hit : bool => if hit then t else p)
                            (Store.id_is id p)))
  | None => ret tt
  end.

Definition removeTask (id : string) : St App unit :=
  let* _ := on_world (Store.remove id) in
  setTasks (filter_cb (Store.id_is_not id)).

Definition clear : St App unit :=
  let* _ := on_world Store.clearAll in
  setTasks (fun _ => Ok []).

(** What the presentation layer asks of the session. *)
Inductive operation :=
| CreateTask (input : Store.TaskInput)
| UpdateTask (id : string) (partial : Store.TaskPatch)
| RemoveTask (id : string).

Definition perform (o : operation) : St App unit :=
  match o with
  | CreateTask input => createTask input
  | UpdateTask id partial => updateTask id partial
  | RemoveTask id => removeTask id
  end.

(** The operations one after the other, each awaited to completion: the
    next one starts where the previous one, resolved or rejected, left the
    world and the cells. *)
Fixpoint perform_all (os : list operation) (a : App) : App :=
  match os with
  | [] => a
  | o :: rest => perform_all rest (snd (perform o a))
  end.

(** A session begins: the cells are initial and the mount effect runs
    [load]. *)
Definition mount (w : World) : App :=
  snd (load {| world := w; session := initial |}).

End WithRuntime.

End Session.

(* ===================================================================== *)
(** * The form and the screens: src/components/TaskForm.tsx, App.tsx *)
(* ===================================================================== *)

Module Form.

(** The three [useState] cells of the form. *)
Record Fields := {
  title : string;
  description : string;
  done : bool
}.

(** What [onSubmit] receives: [{ title; description?; done }]. *)
Record Data := {
  d_title : string;
  d_description : Store.field string;
  d_done : bool
}.

Section WithTrim.

(** [String.prototype.trim]. *)
Variable trim : string -> string.

(** The object the button's [onPress] hands to [onSubmit]:
    [{ title: title.trim(), description: description.trim() || undefined,
    done }]. The key [description] is always there. *)
Definition onPress (f : Fields) : Data :=
  {| d_title := trim (title f);
     d_description :=
       Store.Given (let d := trim (description f) in
                    if String.eqb d EmptyString then None else Some d);
     d_done := done f |}.

(** [disabled={title.trim().length === 0}]. *)
Definition disabled (f : Fields) : bool :=
  Nat.eqb (String.length (trim (title f))) 0.

(** A press of the button: a disabled button does not call [onPress]. *)
Definition press (f : Fields) : option Data :=
  if disabled f then None else Some (onPress f).

End WithTrim.

End Form.

Module App.

(** [Task], as src/types/Task.ts declares it. *)
Record Task := {
  id : string;
  title : string;
  description : option string;
  createdAt : string;
  updatedAt : option string;
  done : bool
}.

Inductive Screen :=
| ScreenList
| ScreenEdit.

Inductive EditState :=
| ModeCreate
| ModeEdit (task : Task).

(** The hook's state and the two [useState] cells of [App]. *)
Record State := {
  hook : Session.App;
  screen : Screen;
  editState : EditState
}.

Definition on_hook {A} (m : St Session.App A) : St State A :=
  fun s =>
    match m (hook s) with
    | (r, h) => (r, {| hook := h; screen := screen s; editState := editState s |})
    end.

Definition setScreen (sc : Screen) : St State unit :=
  fun s => (Ok tt, {| hook := hook s; screen := sc; editState := editState s |}).

Definition setEditState (e : EditState) : St State unit :=
  fun s => (Ok tt, {| hook := hook s; screen := screen s; editState := e |}).

(** [data] read by [create]: [task.title], [task.description],
    [task.done]. *)
Definition as_input (data : Form.Data) : Store.TaskInput :=
  {| Store.title := Form.d_title data;
     Store.description :=
       match Form.d_description data with
       | Store.Given x => x
       | Store.Missing => None
       end;
     Store.done := Some (Form.d_done data) |}.

(** [data] spread by [update]: the keys it has. *)
Definition as_patch (data : Form.Data) : Store.TaskPatch :=
  {| Store.p_title := Store.Given (Some (Form.d_title data));
     Store.p_description := Form.d_description data;
     Store.p_updatedAt := Store.Missing;
     Store.p_done := Store.Given (Some (Form.d_done data)) |}.

Section WithRuntime.

Variable rt : Runtime.

Definition openCreate : St State unit :=
  let* _ := setEditState ModeCreate in
  setScreen ScreenEdit.

Definition openEdit (task : Task) : St State unit :=
  let* _ := setEditState (ModeEdit task) in
  setScreen ScreenEdit.

Definition submit (data : Form.Data) : St State unit :=
  fun s =>
    (let* _ :=
       match editState s with
       | ModeCreate => on_hook (Session.createTask rt (as_input data))
       | ModeEdit task => on_hook (Session.updateTask rt (id task) (as_patch data))
       end in
     setScreen ScreenList) s.


End WithRuntime.

End App.

(* ===================================================================== *)
(** * Notions the statements use *)
(* ===================================================================== *)

(** The collection [readAll] finds in a world. *)
Definition stored (w : World) : list jsval :=
  match fst (Store.readAll w) with
  | Ok items => items
  | Throw _ => []
  end.

(** The id of an entry, when it is an object with a string [id]. *)
Definition task_id (t : jsval) : option string :=
  match t with
  | JObj props => match props !! "id" with Some (JStr s) => Some s | _ => None end
  | _ => None
  end.

Definition has_id (id : string) (t : jsval) : bool :=
  match task_id t with Some s => String.eqb s id | None => false end.

Definition ids (items : list jsval) : list string := omap task_id items.

Definition nonnull (t : jsval) : bool :=
  match t with JNull => false | _ => true end.

(** The object [create] builds from the id and the instant it drew. *)
Definition new_task (id now : string) (task : Store.TaskInput) : jsval :=
  object_literal
    [("id", Some (JStr id));
     ("title", Some (JStr (Store.title task)));
     ("description", JStr <$> Store.description task);
     ("createdAt", Some (JStr now));
     ("updatedAt", Some (JStr now));
     ("done", Some (JBool (default false (Store.done task))))].

(** The entry [update] writes for a matching object [o] at clock reading
    [now]. *)
Definition updated_entry (partial : Store.TaskPatch) (now : string)
    (o : gmap string jsval) : jsval :=
  JObj (<["updatedAt" := JStr now]> (Store.spread_patch partial o)).

(** What [{...t, ...partial}] leaves under one key: the old value when the
    patch does not have the key, the patch's value when it does. *)
Definition merged {A} (inj : A -> jsval) (f : Store.field A) (old : option jsval)
  : option jsval :=
  match f with
  | Store.Missing => old
  | Store.Given x => inj <$> x
  end.


(** An entry whose [done] can be read and is a boolean or missing, as the
    [done] of a Task is. *)
Definition done_typed (t : jsval) : bool :=
  match get t "done" with
  | Ok None | Ok (Some (JBool _)) => true
  | _ => false
  end.

(** [t.done === true]. *)
Definition is_done (t : jsval) : bool :=
  match get t "done" with
  | Ok (Some (JBool true)) => true
  | _ => false
  end.

(** The mirror agrees with the store. *)
Definition synced (a : Session.App) : Prop :=
  Store.readAll (Session.world a)
  = (Ok (Session.tasks (Session.session a)), Session.world a).

(** No two entries of the persisted collection share an id. *)
Definition distinct_ids (w : World) : Prop := NoDup (ids (stored w)).

(** Along the run of [os] from [a], every [createTask] leaves the
    persisted ids pairwise distinct: the id it drew was not in use. *)
Fixpoint collision_free (rt : Runtime) (os : list Session.operation) (a : Session.App)
  : Prop :=
  match os with
  | [] => True
  | o :: rest =>
      match o with
      | Session.CreateTask _ => distinct_ids (Session.world (snd (Session.perform rt o a)))
      | _ => True
      end
      /\ collision_free rt rest (snd (Session.perform rt o a))
  end.

Definition is_lower_hex (c : ascii) : bool :=
  let n := N_of_ascii c in
  ((48 <=? n) && (n <=? 57) || (97 <=? n) && (n <=? 102))%N.

Fixpoint all_chars (p : ascii -> bool) (s : string) : bool :=
  match s with
  | EmptyString => true
  | String c r => p c && all_chars p r
  end.

(** ** Measures and side conditions of the round-trip proofs *)

(** What may follow a value inside a text the printer produced. *)
Definition closes (rest : string) : bool :=
  match rest with
  | EmptyString => true
  | String c _ =>
      let n := N_of_ascii c in ((n =? 44) || (n =? 93) || (n =? 125))%N
  end.

(** What a printed value may start with. *)
Definition opens (c : ascii) : bool :=
  let n := N_of_ascii c in
  negb (Json.is_ws c) && negb (n =? 93)%N && negb (n =? 125)%N.

(** Fuel that parses the printed form of a tree. *)
Fixpoint need (t : Json.tree) : nat :=
  match t with
  | Json.TArr items => S (foldr (fun x acc => S (need x + acc)) 0 items)
  | Json.TObj members => S (foldr (fun kv acc => S (need (snd kv) + acc)) 0 members)
  | _ => 1
  end.

Definition print_member (kv : string * Json.tree) : string :=
  Json.quote (fst kv) +:+ ":" +:+ Json.print (snd kv).

Fixpoint jsize (v : jsval) : nat :=
  match v with
  | JArr items => S (foldr (fun x acc => jsize x + acc) 0 items)
  | JObj props => S (map_fold (fun _ n acc => n + acc) 0 (jsize <$> props))
  | _ => 1
  end.

(* ===================================================================== *)
(** * Sample runtimes, worlds and arguments *)
(* ===================================================================== *)

Module Sample.

Definition pad3 (n : nat) : string :=
  let s := Json.print_nat (N.of_nat n mod 1000) in
  match String.length s with
  | 1 => "00" +:+ s
  | 2 => "0" +:+ s
  | _ => s
  end.

(** A clock that advances one millisecond per reading, and one that is
    read twice within the same millisecond. *)
Definition ticking_clock (n : nat) : string :=
  "2024-05-01T10:00:00." +:+ pad3 n +:+ "Z".


Definition byte_of_nat (n : nat) : Byte.byte :=
  default Byte.x00 (Byte.of_N (N.of_nat n mod 256)).

Definition draw (n i : nat) : Byte.byte := byte_of_nat (16 * n + i).

(** A runtime with Web Crypto. *)
Definition web : Runtime :=
  {| crypto := Crypto draw;
     clock_iso := ticking_clock;
     clock_ms := fun n => (1714557600000 + N.of_nat n)%N;
     random36 := fun _ => "0.4fzyo82mvyr" |}.


(** The same with a source that draws the same sixteen bytes at every
    instant. *)
Definition web_repeating : Runtime :=
  {| crypto := Crypto (fun _ i => byte_of_nat i);
     clock_iso := ticking_clock;
     clock_ms := fun n => (1714557600000 + N.of_nat n)%N;
     random36 := fun _ => "0.4fzyo82mvyr" |}.

Definition repeated_id : string := "000102030405060708090a0b0c0d0e0f".

(** A runtime without [globalThis.crypto] and [globalThis.nativeCrypto]. *)
Definition bare : Runtime :=
  {| crypto := NoCrypto;
     clock_iso := ticking_clock;
     clock_ms := fun n => (1714557600000 + N.of_nat n)%N;
     random36 := fun _ => "0.4fzyo82mvyr" |}.

Definition empty_world : World := {| disk := ∅; tick := 0 |}.

Definition world_with (blob : string) : World :=
  {| disk := {[ Store.STORAGE_KEY := blob ]}; tick := 0 |}.

Definition milk : Store.TaskInput :=
  {| Store.title := "Buy milk"; Store.description := None; Store.done := Some false |}.

Definition bread : Store.TaskInput :=
  {| Store.title := "Bake bread"; Store.description := Some "two loaves";
     Store.done := None |}.

Definition mark_done : Store.TaskPatch :=
  {| Store.p_title := Store.Missing; Store.p_description := Store.Missing;
     Store.p_updatedAt := Store.Missing; Store.p_done := Store.Given (Some true) |}.

Definition zero_id : string := "00000000000000000000000000000000".

(** The id [web] draws at instant 1. *)
Definition first_web_id : string := "101112131415161718191a1b1c1d1e1f".

(** Blobs this program did not write: a bare JSON string, and an array
    of things that are not tasks. *)
Definition bare_string : string := Json.quote "oops".


(** The world after [create milk] in the empty world. *)
Definition one_task (rt : Runtime) : World :=
  snd (Store.create rt milk empty_world).

(** The same after [create bread] as well. *)
Definition two_tasks (rt : Runtime) : World :=
  snd (Store.create rt bread (one_task rt)).

End Sample.

(* ===================================================================== *)
(** * Further notions: lookups, rewrites and generated ids *)
(* ===================================================================== *)

(** What [update] makes of one entry: an entry of the id is rewritten from
    its own properties at some clock reading, any other entry is kept. *)
Definition rewritten (id : string) (partial : Store.TaskPatch) (t t' : jsval) : Prop :=
  if has_id id t
  then exists now, t' = updated_entry partial now (own_props t)
  else t' = t.

(** The byte two hex digits stand for. *)
Definition unhex (s : string) : option Byte.byte :=
  match s with
  | String a (String b EmptyString) =>
      hi ← Json.hex_val a; lo ← Json.hex_val b; Byte.of_N (16 * hi + lo)%N
  | _ => None
  end.

(** The sixteen bytes the random source gives at an instant. *)
Definition drawn (draw : nat -> nat -> Byte.byte) (instant : nat) : list Byte.byte :=
  map (draw instant) (seq 0 16).

(** The entries of a mirror that are not done. *)
Definition is_pending (t : jsval) : bool := negb (is_done t).

(** The value of a digit of [Number.prototype.toString(radix)], and of a
    text of such digits read in [radix] from [acc] on. *)
Definition digit_value (c : ascii) : N :=
  let n := N_of_ascii c in if (n <? 58)%N then (n - 48)%N else (n - 87)%N.

Fixpoint radix_value (radix : N) (s : string) (acc : N) : N :=
  match s with
  | EmptyString => acc
  | String c r => radix_value radix r (acc * radix + digit_value c)
  end.

(** A sample [trim], which strips the ASCII spaces, and a sample form. *)
Fixpoint trim_start (s : string) : string :=
  match s with
  | String c r => if Ascii.eqb c " " then trim_start r else s
  | EmptyString => s
  end.

Definition rev_string (s : string) : string :=
  String.string_of_list_ascii (rev (String.list_ascii_of_string s)).

Definition trim_spaces (s : string) : string :=
  rev_string (trim_start (rev_string (trim_start s))).

Definition sample_fields : Form.Fields :=
  {| Form.title := "  Water the plants ";
     Form.description := "   ";
     Form.done := true |}.


(** [App] on the list screen over a session mounted on a world. *)
Definition app_on (rt : Runtime) (w : World) (e : App.EditState) : App.State :=
  {| App.hook := Session.mount w; App.screen := App.ScreenEdit; App.editState := e |}.

(** A runtime whose [getRandomValues] throws, and a blob with an entry
    that is not a task. *)
Definition throwing : Runtime :=
  {| crypto := CryptoThrows;
     clock_iso := Sample.ticking_clock;
     clock_ms := fun n => (1714557600000 + N.of_nat n)%N;
     random36 := fun _ => "0.4fzyo82mvyr" |}.

Definition null_blob : string := "[null]".

(** A closed, decidable proposition, settled by evaluating its decision
    procedure. *)
Ltac by_evaluation :=
  match goal with
  | |- ?P => apply (bool_decide_unpack P); vm_compute; exact I
  end.

(* ===================================================================== *)
(** * JSON text: parsing what was printed *)
(* ===================================================================== *)

Section JsonRoundTrip.

Lemma append_assoc (a b c : string) : (a +:+ b) +:+ c = a +:+ (b +:+ c).
Proof.
  induction a as [|x a IH]; [reflexivity |].
  change (String x ((a +:+ b) +:+ c) = String x (a +:+ b +:+ c)). by rewrite IH.
Qed.

Lemma append_nil_r (a : string) : a +:+ EmptyString = a.
Proof.
  induction a as [|x a IH]; [reflexivity |].
  change (String x (a +:+ EmptyString) = String x a). by rewrite IH.
Qed.

Lemma length_append (a b : string) :
  String.length (a +:+ b) = String.length a + String.length b.
Proof.
  induction a as [|x a IH]; [reflexivity |].
  change (S (String.length (a +:+ b)) = S (String.length a + String.length b)).
  by rewrite IH.
Qed.

(** One escaped character is read back as the character. *)
Lemma parse_chars_escape_char (c : ascii) (tail : string) :
  Json.parse_chars (Json.escape_char c +:+ tail)
  = p ← Json.parse_chars tail; Some (String c (fst p), snd p).
Proof. destruct c as [[] [] [] [] [] [] [] []]; reflexivity. Qed.

Lemma parse_chars_escape (s rest : string) :
  Json.parse_chars (Json.escape s +:+ String Json.dquote rest) = Some (s, rest).
Proof.
  induction s as [|c s IH]; [reflexivity |].
  cbn [Json.escape]. rewrite append_assoc, parse_chars_escape_char, IH. reflexivity.
Qed.

Lemma closes_cases (rest : string) :
  closes rest = true ->
  rest = EmptyString
  \/ exists r, rest = String "," r \/ rest = String "]" r \/ rest = String "}" r.
Proof.
  destruct rest as [|c r]; [by left |]. intros H. right. exists r.
  unfold closes in H.
  assert (N_of_ascii c = 44 \/ N_of_ascii c = 93 \/ N_of_ascii c = 125)%N as Hc.
  { apply orb_prop in H as [H | H]; [apply orb_prop in H as [H | H] |];
      apply N.eqb_eq in H; auto. }
  rewrite <- (ascii_N_embedding c).
  destruct Hc as [-> | [-> | ->]]; auto.
Qed.

Lemma closes_no_tail (rest : string) :
  closes rest = true -> Json.starts_number_tail rest = false.
Proof.
  intros H. apply closes_cases in H as [-> | [r [-> | [-> | ->]]]]; reflexivity.
Qed.

Lemma span_digits_uint (d : Decimal.uint) (rest : string) :
  closes rest = true ->
  Json.span_digits (NilEmpty.string_of_uint d +:+ rest)
  = (NilEmpty.string_of_uint d, rest).
Proof.
  intros Hrest. induction d; cbn [NilEmpty.string_of_uint];
    try (change (String ?c ?a +:+ ?b) with (String c (a +:+ b));
         cbn [Json.span_digits]; rewrite IHd; reflexivity).
  apply closes_cases in Hrest as [-> | [r [-> | [-> | ->]]]]; reflexivity.
Qed.

(** The decimal form of a number has a digit, and no leading zero unless
    it is the lone digit. *)
Lemma to_uint_head (n : N) :
  exists c ds, NilEmpty.string_of_uint (N.to_uint n) = String c ds
    /\ ((N_of_ascii c =? 48)%N && negb (String.eqb ds EmptyString) = false).
Proof.
  assert (Decimal.unorm (N.to_uint n) = N.to_uint n) as Hnorm.
  { rewrite <- (DecimalN.Unsigned.to_of (N.to_uint n)).
    by rewrite DecimalN.Unsigned.of_to. }
  destruct (N.to_uint n) as [|u|u|u|u|u|u|u|u|u|u] eqn:E;
    try (eexists _, _; split; [reflexivity | reflexivity]).
  - destruct n; discriminate || (by destruct (DecimalPos.Unsigned.to_uint_nonnil p)).
  - rewrite DecimalFacts.unorm_D0 in Hnorm. unfold Decimal.unorm in Hnorm.
    destruct (Decimal.nzhead u) eqn:Hu; try discriminate.
    + injection Hnorm as <-. eexists _, _; split; reflexivity.
    + by destruct (DecimalFacts.nzhead_nonzero u u0).
Qed.

Lemma parse_nat_print (n : N) (rest : string) :
  closes rest = true ->
  Json.parse_nat (Json.print_nat n +:+ rest) = Some (n, rest).
Proof.
  intros Hrest. unfold Json.parse_nat, Json.print_nat.
  rewrite span_digits_uint by done. cbn [fst snd].
  pose proof (NilEmpty.usu (N.to_uint n)) as Hu.
  destruct (to_uint_head n) as (c & ds & Hs & Hz).
  rewrite Hs in *. rewrite Hz, closes_no_tail, Hu by done.
  cbn. by rewrite DecimalN.Unsigned.of_to.
Qed.

Lemma print_nat_head (n : N) :
  exists c r, Json.print_nat n = String c r /\ Json.is_digit c = true.
Proof.
  unfold Json.print_nat.
  destruct (N.to_uint n) eqn:E; try (eexists _, _; split; reflexivity).
  destruct n; [discriminate | by destruct (DecimalPos.Unsigned.to_uint_nonnil p)].
Qed.

(** Induction on syntax trees, through the lists they nest. *)
Lemma tree_nested_ind (P : Json.tree -> Prop) :
  P Json.TNull ->
  (forall b, P (Json.TBool b)) ->
  (forall n, P (Json.TNum n)) ->
  (forall s, P (Json.TStr s)) ->
  (forall items, Forall P items -> P (Json.TArr items)) ->
  (forall members, Forall (fun kv => P (snd kv)) members -> P (Json.TObj members)) ->
  forall t, P t.
Proof.
  intros Hnull Hbool Hnum Hstr Harr Hobj.
  fix IH 1. intros [| b | n | s | items | members].
  - exact Hnull.
  - apply Hbool.
  - apply Hnum.
  - apply Hstr.
  - apply Harr. induction items as [|x items IHitems]; constructor; [apply IH | exact IHitems].
  - apply Hobj. induction members as [|[k x] members IHm]; constructor; [apply IH | exact IHm].
Qed.

Lemma parse_value_digit (fuel : nat) (c : ascii) (r : string) :
  Json.is_digit c = true ->
  Json.parse_value (S fuel) (String c r)
  = p ← Json.parse_nat (String c r); Some (Json.TNum (Z.of_N (fst p)), snd p).
Proof.
  destruct c as [[] [] [] [] [] [] [] []]; intros H; try discriminate H; reflexivity.
Qed.

Lemma digit_opens (c : ascii) : Json.is_digit c = true -> opens c = true.
Proof.
  destruct c as [[] [] [] [] [] [] [] []]; intros H; try discriminate H; reflexivity.
Qed.

Lemma print_head (t : Json.tree) :
  exists c r, Json.print t = String c r /\ opens c = true.
Proof.
  destruct t as [| [] | [|p|p] | s | items | members];
    try (eexists _, _; split; reflexivity).
  destruct (print_nat_head (N.pos p)) as (c & r & E & Hc).
  exists c, r. split; [exact E | by apply digit_opens].
Qed.

Lemma skip_ws_opens (c : ascii) (r : string) :
  opens c = true -> Json.skip_ws (String c r) = String c r.
Proof.
  unfold opens. intros H. cbn [Json.skip_ws].
  destruct (Json.is_ws c); [discriminate H | reflexivity].
Qed.

Lemma parse_items_print (items : list Json.tree) :
  Forall (fun t => forall fuel rest, need t <= fuel -> closes rest = true ->
            Json.parse_value fuel (Json.print t +:+ rest) = Some (t, rest)) items ->
  items <> [] ->
  forall fuel rest,
    foldr (fun x acc => S (need x + acc)) 0 items <= fuel ->
    Json.parse_items fuel (Json.sep_by "," (map Json.print items) +:+ String "]" rest)
    = Some (items, rest).
Proof.
  induction 1 as [|x items Hx _ IH]; [done |]. intros _ fuel rest Hfuel.
  cbn [foldr] in Hfuel. destruct fuel as [|fuel]; [lia |].
  cbn [Json.parse_items]. destruct items as [|y items].
  - cbn [map Json.sep_by]. rewrite Hx by (done || lia). reflexivity.
  - change (Json.sep_by "," (map Json.print (x :: y :: items)))
      with (Json.print x +:+ "," +:+ Json.sep_by "," (map Json.print (y :: items))).
    rewrite !append_assoc.
    change ("," +:+ ?s) with (String "," s).
    rewrite Hx by (done || lia). cbn [mbind option_bind fst snd Json.skip_ws].
    change (Json.is_ws ",") with false. cbn iota.
    change (N_of_ascii "," =? 44)%N with true. cbn iota.
    rewrite IH by (done || lia). reflexivity.
Qed.

Lemma parse_members_print (members : list (string * Json.tree)) :
  Forall (fun kv => forall fuel rest, need (snd kv) <= fuel -> closes rest = true ->
            Json.parse_value fuel (Json.print (snd kv) +:+ rest) = Some (snd kv, rest))
         members ->
  members <> [] ->
  forall fuel rest,
    foldr (fun kv acc => S (need (snd kv) + acc)) 0 members <= fuel ->
    Json.parse_members fuel
      (Json.sep_by "," (map print_member members) +:+ String "}" rest)
    = Some (members, rest).
Proof.
  induction 1 as [|[k x] members Hx _ IH]; [done |]. intros _ fuel rest Hfuel.
  cbn [foldr snd] in Hfuel. cbn [snd] in Hx.
  destruct fuel as [|fuel]; [lia |].
  assert (forall tail,
    Json.parse_members (S fuel) (print_member (k, x) +:+ tail)
    = p ← Json.parse_value fuel (Json.print x +:+ tail);
      match Json.skip_ws (snd p) with
      | String c2 r2 =>
          if (N_of_ascii c2 =? 44)%N then
            q ← Json.parse_members fuel r2; Some ((k, fst p) :: fst q, snd q)
          else if (N_of_ascii c2 =? 125)%N then Some ([(k, fst p)], r2)
          else None
      | EmptyString => None
      end) as Hstep.
  { intros tail. unfold print_member, Json.quote. cbn [fst snd].
    rewrite !append_assoc.
    change (String Json.dquote ?a +:+ ?b) with (String Json.dquote (a +:+ b)).
    cbn [Json.parse_members Json.skip_ws].
    change (Json.is_ws Json.dquote) with false. cbn iota.
    change (N_of_ascii Json.dquote =? 34)%N with true. cbn iota.
    rewrite !append_assoc.
    change (String Json.dquote EmptyString +:+ ?b) with (String Json.dquote b).
    rewrite parse_chars_escape. reflexivity. }
  destruct members as [|y members].
  - cbn [map Json.sep_by]. rewrite Hstep, Hx by (done || lia). reflexivity.
  - change (Json.sep_by "," (map print_member ((k, x) :: y :: members)))
      with (print_member (k, x) +:+ "," +:+ Json.sep_by "," (map print_member (y :: members))).
    rewrite !append_assoc, Hstep.
    change ("," +:+ ?s) with (String "," s).
    rewrite Hx by (done || lia). cbn [mbind option_bind fst snd Json.skip_ws].
    change (Json.is_ws ",") with false. cbn iota.
    change (N_of_ascii "," =? 44)%N with true. cbn iota.
    rewrite IH by (done || lia). reflexivity.
Qed.

Lemma parse_value_print (t : Json.tree) :
  forall fuel rest, need t <= fuel -> closes rest = true ->
    Json.parse_value fuel (Json.print t +:+ rest) = Some (t, rest).
Proof.
  induction t as [| b | n | s | items IH | members IH] using tree_nested_ind;
    intros [|fuel] rest Hfuel Hrest; cbn [need] in Hfuel; try lia.
  - reflexivity.
  - destruct b; reflexivity.
  - destruct n as [|p|p].
    + apply closes_cases in Hrest as [-> | [r [-> | [-> | ->]]]]; reflexivity.
    + change (Json.print (Json.TNum (Z.pos p))) with (Json.print_nat (N.pos p)).
      destruct (print_nat_head (N.pos p)) as (c & r & E & Hc).
      rewrite E. change (String c r +:+ rest) with (String c (r +:+ rest)).
      rewrite parse_value_digit by done.
      change (String c (r +:+ rest)) with (String c r +:+ rest).
      rewrite <- E, parse_nat_print by done. reflexivity.
    + change (Json.print (Json.TNum (Z.neg p))) with (String "-" (Json.print_nat (N.pos p))).
      change (String "-" ?a +:+ ?b) with (String "-" (a +:+ b)).
      cbn [Json.parse_value Json.skip_ws].
      change (Json.is_ws "-") with false. cbn iota.
      change (N_of_ascii "-") with 45%N. cbn [N.eqb Pos.eqb].
      rewrite parse_nat_print by done. reflexivity.
  - change (Json.print (Json.TStr s)) with (Json.quote s). unfold Json.quote.
    change (String Json.dquote ?a +:+ ?b) with (String Json.dquote (a +:+ b)).
    rewrite append_assoc.
    change (String Json.dquote EmptyString +:+ ?b) with (String Json.dquote b).
    cbn [Json.parse_value Json.skip_ws].
    change (Json.is_ws Json.dquote) with false. cbn iota.
    change (N_of_ascii Json.dquote) with 34%N. cbn [N.eqb Pos.eqb].
    rewrite parse_chars_escape. reflexivity.
  - destruct items as [|x items]; [reflexivity |].
    change (Json.print (Json.TArr (x :: items)))
      with ("[" +:+ Json.sep_by "," (map Json.print (x :: items)) +:+ "]").
    rewrite !append_assoc.
    change ("[" +:+ ?s) with (String "[" s). change ("]" +:+ ?s) with (String "]" s).
    cbn [Json.parse_value Json.skip_ws].
    change (Json.is_ws "[") with false. cbn iota.
    change (N_of_ascii "[") with 91%N. cbn [N.eqb Pos.eqb].
    assert (exists c r, Json.sep_by "," (map Json.print (x :: items)) +:+ String "]" rest
                        = String c r /\ opens c = true) as (c & r & E & Hc).
    { destruct (print_head x) as (c & r & E & Hc). cbn [map Json.sep_by].
      destruct (map Json.print items); rewrite E; eexists _, _; (split; [reflexivity | done]). }
    rewrite E, skip_ws_opens by done. rewrite <- E.
    replace (N_of_ascii c =? 93)%N with false
      by (unfold opens in Hc; destruct (N_of_ascii c =? 93)%N;
          [by rewrite andb_false_r in Hc | done]).
    rewrite parse_items_print; [reflexivity | exact IH | done | lia].
  - destruct members as [|kx members]; [reflexivity |].
    change (Json.print (Json.TObj (kx :: members)))
      with ("{" +:+ Json.sep_by "," (map print_member (kx :: members)) +:+ "}").
    rewrite !append_assoc.
    change ("{" +:+ ?s) with (String "{" s). change ("}" +:+ ?s) with (String "}" s).
    cbn [Json.parse_value Json.skip_ws].
    change (Json.is_ws "{") with false. cbn iota.
    change (N_of_ascii "{") with 123%N. cbn [N.eqb Pos.eqb].
    assert (exists r, Json.sep_by "," (map print_member (kx :: members)) +:+ String "}" rest
                      = String Json.dquote r) as (r & E).
    { cbn [map Json.sep_by]. destruct (map print_member members); eexists; reflexivity. }
    rewrite E. cbn [Json.skip_ws].
    change (Json.is_ws Json.dquote) with false. cbn iota.
    change (N_of_ascii Json.dquote) with 34%N. cbn [N.eqb Pos.eqb].
    rewrite <- E.
    rewrite parse_members_print; [reflexivity | exact IH | done | lia].
Qed.

(** The length of a printed tree is fuel enough to parse it. *)
Lemma need_le_length (t : Json.tree) : need t <= String.length (Json.print t).
Proof.
  induction t as [| b | n | s | items IH | members IH] using tree_nested_ind;
    cbn [need].
  - cbn. lia.
  - destruct b; cbn; lia.
  - destruct (print_head (Json.TNum n)) as (c & r & -> & _). cbn. lia.
  - cbn. lia.
  - change (Json.print (Json.TArr items))
      with ("[" +:+ Json.sep_by "," (map Json.print items) +:+ "]").
    rewrite !length_append. cbn [String.length].
    enough (foldr (fun x acc => S (need x + acc)) 0 items
            <= S (String.length (Json.sep_by "," (map Json.print items)))) by lia.
    induction IH as [|x items Hx _ IHl]; [cbn; lia |].
    cbn [foldr map]. destruct items as [|y items]; [cbn in *; lia |].
    change (Json.sep_by "," (Json.print x :: map Json.print (y :: items)))
      with (Json.print x +:+ "," +:+ Json.sep_by "," (map Json.print (y :: items))).
    rewrite !length_append. cbn [String.length]. lia.
  - change (Json.print (Json.TObj members))
      with ("{" +:+ Json.sep_by "," (map print_member members) +:+ "}").
    rewrite !length_append. cbn [String.length].
    enough (foldr (fun kv acc => S (need (snd kv) + acc)) 0 members
            <= S (String.length (Json.sep_by "," (map print_member members)))) by lia.
    induction IH as [|[k x] members Hx _ IHl]; [cbn; lia |]. cbn [snd] in Hx.
    assert (need x <= String.length (print_member (k, x))) as Hm.
    { unfold print_member. rewrite !length_append. cbn [snd]. lia. }
    cbn [foldr map snd].
    destruct members as [|y members]; [cbn [foldr map Json.sep_by] in *; lia |].
    change (Json.sep_by "," (print_member (k, x) :: map print_member (y :: members)))
      with (print_member (k, x) +:+ "," +:+ Json.sep_by "," (map print_member (y :: members))).
    rewrite !length_append. cbn [String.length]. lia.
Qed.

(** Parsing what the printer printed gives the tree back. *)
Lemma parse_print (t : Json.tree) : Json.parse (Json.print t) = Some t.
Proof.
  unfold Json.parse.
  rewrite <- (append_nil_r (Json.print t)) at 2.
  rewrite parse_value_print; [reflexivity | | reflexivity].
  pose proof (need_le_length t). lia.
Qed.

Lemma print_nonempty (t : Json.tree) : Json.print t <> EmptyString.
Proof. destruct (print_head t) as (c & r & -> & _). discriminate. Qed.

End JsonRoundTrip.

(* ===================================================================== *)
(** * [JSON.parse] after [JSON.stringify] *)
(* ===================================================================== *)

Section ValueRoundTrip.

Lemma map_fold_sum_ge (m : gmap string nat) (k : string) (n : nat) :
  m !! k = Some n -> n <= map_fold (fun _ n acc => n + acc) 0 m.
Proof.
  intros Hk. rewrite <- (insert_delete_id m k n Hk).
  rewrite map_fold_insert_L.
  - lia.
  - intros; lia.
  - apply lookup_delete_eq.
Qed.

Lemma foldr_sum_ge (items : list jsval) (x : jsval) :
  In x items -> jsize x <= foldr (fun x acc => jsize x + acc) 0 items.
Proof.
  induction items as [|y items IH]; [intros [] |].
  intros [-> | Hx]; cbn [foldr]; [lia |]. specialize (IH Hx). lia.
Qed.

(** Induction on values, through the arrays and the objects they nest. *)
Lemma jsval_nested_ind (P : jsval -> Prop) :
  P JNull ->
  (forall b, P (JBool b)) ->
  (forall n, P (JNum n)) ->
  (forall s, P (JStr s)) ->
  (forall items, Forall P items -> P (JArr items)) ->
  (forall props, map_Forall (fun _ => P) props -> P (JObj props)) ->
  forall v, P v.
Proof.
  intros Hnull Hbool Hnum Hstr Harr Hobj v.
  remember (jsize v) as n eqn:Hn. revert v Hn.
  induction (lt_wf n) as [n _ IH]. intros [| b | z | s | items | props] ->; auto.
  - apply Harr. apply Forall_forall. intros x Hx.
    apply (IH (jsize x)); [| reflexivity]. cbn [jsize].
    apply foldr_sum_ge in Hx. lia.
  - apply Hobj. intros k x Hk.
    apply (IH (jsize x)); [| reflexivity]. cbn [jsize].
    assert ((jsize <$> props) !! k = Some (jsize x)) as Hk'
      by (by rewrite lookup_fmap, Hk).
    apply map_fold_sum_ge in Hk'. lia.
Qed.

Lemma foldl_insert_lookup {A B} (g : A -> B) (l : list (string * A)) :
  NoDup l.*1 ->
  forall (m0 : gmap string B) (k : string),
    foldl (fun o kv => <[fst kv := g (snd kv)]> o) m0 l !! k
    = match (list_to_map l : gmap string A) !! k with
      | Some a => Some (g a)
      | None => m0 !! k
      end.
Proof.
  induction l as [|[j a] l IH]; intros Hnd m0 k; [cbn; by rewrite lookup_empty |].
  cbn [fmap list_fmap fst] in Hnd. inversion Hnd as [|? ? Hj Hnd']; subst.
  cbn [foldl fst snd list_to_map foldr uncurry]. rewrite IH by done.
  destruct (decide (j = k)) as [<- | Hne].
  - rewrite lookup_insert_eq.
    rewrite (not_elem_of_list_to_map_1 (M := gmap string) l j Hj).
    by rewrite lookup_insert_eq.
  - rewrite !lookup_insert_ne by done. reflexivity.
Qed.

Lemma of_tree_to_tree (v : jsval) : of_tree (to_tree v) = v.
Proof.
  induction v as [| b | n | s | items IH | props IH] using jsval_nested_ind;
    try reflexivity.
  - cbn [to_tree of_tree]. f_equal.
    induction IH as [|x items Hx _ IHl]; [reflexivity |].
    cbn [map]. by rewrite Hx, IHl.
  - cbn [to_tree of_tree]. f_equal. apply map_eq. intros k.
    rewrite foldl_insert_lookup by apply NoDup_fst_map_to_list.
    rewrite list_to_map_to_list, lookup_fmap, lookup_empty.
    destruct (props !! k) as [x|] eqn:Hk; cbn; [| reflexivity].
    f_equal. by apply (IH k).
Qed.

Lemma JSON_parse_stringify (v : jsval) : JSON_parse (JSON_stringify v) = Ok v.
Proof.
  unfold JSON_parse, JSON_stringify. by rewrite parse_print, of_tree_to_tree.
Qed.

Lemma JSON_stringify_nonempty (v : jsval) : JSON_stringify v <> EmptyString.
Proof. apply print_nonempty. Qed.

End ValueRoundTrip.

(* ===================================================================== *)
(** * The Record Store *)
(* ===================================================================== *)

Section StoreFacts.

Variable rt : Runtime.

(** [getAll] returns, and leaves the world as it found it. *)
Lemma getAll_total (w : World) : Store.getAll w = (Ok (stored w), w).
Proof.
  unfold stored, Store.readAll, Store.getAll, bind, getItem, ret, try_catch, lift.
  cbn [fst snd].
  destruct (disk w !! Store.STORAGE_KEY) as [raw|]; [| reflexivity].
  destruct (String.eqb raw EmptyString); [reflexivity |].
  destruct (JSON_parse raw) as [[]|]; reflexivity.
Qed.

(** What was saved is what is read. *)
Lemma getAll_saveAll (items : list jsval) (w : World) :
  Store.getAll (snd (Store.saveAll items w)) = (Ok items, snd (Store.saveAll items w)).
Proof.
  unfold Store.getAll, Store.saveAll, setItem, bind, getItem, ret, try_catch, lift.
  cbn [fst snd disk]. rewrite lookup_insert_eq.
  destruct (String.eqb_spec (JSON_stringify (JArr items)) EmptyString) as [E | _].
  - by destruct (JSON_stringify_nonempty _ E).
  - by rewrite JSON_parse_stringify.
Qed.

Lemma stored_saveAll (items : list jsval) (w : World) :
  stored (snd (Store.saveAll items w)) = items.
Proof. unfold stored, Store.readAll. by rewrite getAll_saveAll. Qed.

Lemma stored_disk (w w' : World) : disk w = disk w' -> stored w = stored w'.
Proof.
  intros H. unfold stored, Store.readAll, Store.getAll, bind, getItem, ret, try_catch, lift.
  cbn [fst]. rewrite H.
  destruct (disk w' !! Store.STORAGE_KEY) as [raw|]; [| reflexivity].
  destruct (String.eqb raw EmptyString); [reflexivity |].
  destruct (JSON_parse raw) as [[]|]; reflexivity.
Qed.

(** ** Reading ids *)

Lemma id_is_nonnull (id : string) (t : jsval) :
  nonnull t = true -> Store.id_is id t = Ok (has_id id t).
Proof.
  destruct t as [| | | | |props]; try discriminate; intros _; try reflexivity.
  unfold Store.id_is, has_id, task_id, get, result_map, strict_eq_string.
  destruct (props !! "id") as [[]|]; reflexivity.
Qed.

Lemma id_is_not_nonnull (id : string) (t : jsval) :
  nonnull t = true -> Store.id_is_not id t = Ok (negb (has_id id t)).
Proof.
  destruct t as [| | | | |props]; try discriminate; intros _; try reflexivity.
  unfold Store.id_is_not, has_id, task_id, get, result_map, strict_eq_string.
  destruct (props !! "id") as [[]|]; reflexivity.
Qed.

Lemma id_is_Ok (id : string) (t : jsval) (b : bool) :
  Store.id_is id t = Ok b -> nonnull t = true /\ has_id id t = b.
Proof.
  destruct t; try discriminate; intros H; (split; [reflexivity |]);
    rewrite id_is_nonnull in H by reflexivity; congruence.
Qed.

Lemma id_is_hit (id : string) (o : gmap string jsval) :
  o !! "id" = Some (JStr id) -> Store.id_is id (JObj o) = Ok true.
Proof.
  intros Ho. unfold Store.id_is, get, result_map, strict_eq_string. rewrite Ho.
  by rewrite String.eqb_refl.
Qed.

Lemma has_id_true (id : string) (t : jsval) :
  has_id id t = true <-> task_id t = Some id.
Proof.
  unfold has_id. destruct (task_id t) as [s|]; [| split; discriminate].
  rewrite String.eqb_eq. split; congruence.
Qed.

Lemma forallb_nonnull_false (items : list jsval) :
  forallb nonnull items = false -> In JNull items.
Proof.
  induction items as [|t items IH]; [discriminate |]. cbn [forallb].
  destruct t; cbn [nonnull andb]; intros H; (by left) || (right; by apply IH).
Qed.

(** ** [create] *)

Lemma cryptoRandomId_total (w : World) :
  exists id w', Store.cryptoRandomId rt w = (Ok id, w') /\ disk w' = disk w.
Proof.
  unfold Store.cryptoRandomId, Store.random_bytes, try_catch, bind, ret, throw,
    Math_random_toString36, Date_now.
  destruct (crypto rt); cbn; eauto.
Qed.

Lemma create_eval (task : Store.TaskInput) (w : World) :
  exists id w1,
    Store.cryptoRandomId rt (advance w) = (Ok id, w1) /\
    let t := new_task id (clock_iso rt (tick w)) task in
    Store.create rt task w = (Ok t, snd (Store.saveAll (t :: stored w) w1)).
Proof.
  destruct (cryptoRandomId_total (advance w)) as (id & w1 & Hid & Hdisk).
  exists id, w1. split; [exact Hid |]. cbn zeta.
  unfold Store.create. unfold bind at 1. rewrite getAll_total.
  unfold bind at 1. unfold new_Date_toISOString at 1.
  unfold bind at 1. rewrite Hid. unfold bind, ret, Store.saveAll, setItem.
  reflexivity.
Qed.

Lemma new_task_fields (id now : string) (task : Store.TaskInput) :
  let t := new_task id now task in
  get t "id" = Ok (Some (JStr id)) /\
  get t "title" = Ok (Some (JStr (Store.title task))) /\
  get t "description" = Ok (JStr <$> Store.description task) /\
  get t "createdAt" = Ok (Some (JStr now)) /\
  get t "updatedAt" = Ok (Some (JStr now)) /\
  get t "done" = Ok (Some (JBool (default false (Store.done task)))).
Proof.
  unfold new_task, object_literal, get, set_prop. cbn [foldl fst snd].
  destruct (Store.description task) as [d|]; cbn [fmap option_fmap option_map];
    repeat split; f_equal;
    repeat (rewrite lookup_insert_ne by discriminate
            || rewrite lookup_delete_ne by discriminate);
    try (by rewrite lookup_insert_eq).
Qed.

(** C3. [create] returns a task stamped [createdAt = updatedAt], the
    instant it read, with [done] as supplied or [false], and the collection
    read afterwards is that task followed by the collection as it was. *)
Theorem create_prepends (task : Store.TaskInput) (w : World) :
  exists t w',
    Store.create rt task w = (Ok t, w') /\
    get t "createdAt" = get t "updatedAt" /\
    get t "createdAt" = Ok (Some (JStr (clock_iso rt (tick w)))) /\
    get t "done" = Ok (Some (JBool (default false (Store.done task)))) /\
    get t "title" = Ok (Some (JStr (Store.title task))) /\
    get t "description" = Ok (JStr <$> Store.description task) /\
    Store.readAll w' = (Ok (t :: stored w), w').
Proof.
  destruct (create_eval task w) as (id & w1 & _ & Hc). cbn zeta in Hc.
  destruct (new_task_fields id (clock_iso rt (tick w)) task)
    as (_ & Ht & Hd & Hca & Hua & Hdone).
  eexists _, _. split; [exact Hc |].
  repeat split; try done; try congruence.
  unfold Store.readAll. apply getAll_saveAll.
Qed.

(** ** [readAll] *)

(** C4. A blob that is missing, does not parse, or parses to something
    other than an array reads as the empty collection; the read returns. *)
Theorem readAll_degrades (w : World) :
  disk w !! Store.STORAGE_KEY = None
  \/ (exists raw e, disk w !! Store.STORAGE_KEY = Some raw /\ JSON_parse raw = Throw e)
  \/ (exists raw v, disk w !! Store.STORAGE_KEY = Some raw /\ JSON_parse raw = Ok v
                    /\ Array_isArray v = false) ->
  Store.readAll w = (Ok [], w).
Proof.
  unfold Store.readAll, Store.getAll, bind, getItem, ret, try_catch, lift.
  intros [-> | [(raw & e & -> & Hp) | (raw & v & -> & Hp & Hv)]]; [reflexivity | |];
    destruct (String.eqb raw EmptyString); try reflexivity; rewrite Hp; [reflexivity |].
  destruct v; try reflexivity. discriminate Hv.
Qed.


(** ** [clearAll] *)

(** C8. [clearAll] deletes the key and no other, the collection then reads
    as empty, and saving the empty collection would have left the key
    with a text instead. *)
Theorem clearAll_removes_key (w : World) :
  exists w',
    Store.clearAll w = (Ok tt, w') /\
    disk w' !! Store.STORAGE_KEY = None /\
    (forall key, key <> Store.STORAGE_KEY -> disk w' !! key = disk w !! key) /\
    Store.readAll w' = (Ok [], w') /\
    disk (snd (Store.saveAll [] w)) !! Store.STORAGE_KEY = Some "[]".
Proof.
  eexists. split; [reflexivity |]. cbn [disk].
  split; [apply lookup_delete_eq |].
  split; [intros key Hkey; by rewrite lookup_delete_ne |]. split.
  - unfold Store.readAll, Store.getAll, bind, getItem. cbn [disk].
    by rewrite lookup_delete_eq.
  - cbn. by rewrite lookup_insert_eq.
Qed.

(** ** [update] *)

Lemma update_each_disk (id : string) (partial : Store.TaskPatch) (items : list jsval) :
  forall u w, disk (snd (Store.update_each rt id partial items u w)) = disk w.
Proof.
  induction items as [|t items IH]; intros u w; [reflexivity |].
  cbn [Store.update_each]. unfold bind at 1. unfold lift at 1.
  destruct (Store.id_is id t) as [[]|]; [| | reflexivity].
  - unfold bind at 1. unfold new_Date_toISOString at 1. unfold bind at 1.
    match goal with |- context [Store.update_each rt id partial items ?u' ?w'] =>
      specialize (IH u' w');
      destruct (Store.update_each rt id partial items u' w') as [[r|e] w2]
    end; cbn in *; congruence.
  - unfold bind at 1.
    match goal with |- context [Store.update_each rt id partial items ?u' ?w'] =>
      specialize (IH u' w');
      destruct (Store.update_each rt id partial items u' w') as [[r|e] w2]
    end; cbn in *; congruence.
Qed.

Lemma update_each_miss (id : string) (partial : Store.TaskPatch) (items : list jsval) :
  Forall (fun t => Store.id_is id t = Ok false) items ->
  forall u w, Store.update_each rt id partial items u w = (Ok (items, u), w).
Proof.
  induction 1 as [|t items Ht _ IH]; intros u w; [reflexivity |].
  cbn [Store.update_each]. unfold bind, lift. rewrite Ht, IH. reflexivity.
Qed.

Lemma update_each_hit (id : string) (partial : Store.TaskPatch)
    (before after : list jsval) (o : gmap string jsval) :
  Forall (fun t => Store.id_is id t = Ok false) before ->
  Forall (fun t => Store.id_is id t = Ok false) after ->
  o !! "id" = Some (JStr id) ->
  forall u w,
    Store.update_each rt id partial (before ++ JObj o :: after) u w
    = (Ok (before ++ updated_entry partial (clock_iso rt (tick w)) o :: after,
           Some (updated_entry partial (clock_iso rt (tick w)) o)),
       advance w).
Proof.
  intros Hb Ha Ho. induction Hb as [|t before Ht _ IH]; intros u w.
  - cbn [app Store.update_each]. unfold bind at 1. unfold lift at 1.
    rewrite id_is_hit by done.
    unfold bind, new_Date_toISOString. rewrite update_each_miss by done.
    reflexivity.
  - cbn [app Store.update_each]. unfold bind at 1. unfold lift at 1. rewrite Ht.
    unfold bind at 1. rewrite IH. reflexivity.
Qed.

Lemma update_each_null (id : string) (partial : Store.TaskPatch) (items : list jsval) :
  In JNull items ->
  forall u w, exists e w', Store.update_each rt id partial items u w = (Throw e, w').
Proof.
  induction items as [|t items IH]; [intros [] |]. intros [-> | Hin] u w.
  - cbn. eauto.
  - cbn [Store.update_each]. unfold bind at 1. unfold lift at 1.
    destruct (Store.id_is id t) as [[]|]; [| | eauto].
    + unfold bind at 1. unfold new_Date_toISOString at 1. unfold bind at 1.
      match goal with |- context [Store.update_each rt id partial items ?u' ?w'] =>
        destruct (IH Hin u' w') as (e & w2 & ->) end. eauto.
    + unfold bind at 1.
      match goal with |- context [Store.update_each rt id partial items ?u' ?w'] =>
        destruct (IH Hin u' w') as (e & w2 & ->) end. eauto.
Qed.

Lemma update_miss (id : string) (partial : Store.TaskPatch) (w : World) :
  Forall (fun t => Store.id_is id t = Ok false) (stored w) ->
  Store.update rt id partial w = (Ok None, snd (Store.saveAll (stored w) w)).
Proof.
  intros Hmiss. unfold Store.update. unfold bind at 1. rewrite getAll_total.
  unfold bind at 1. rewrite update_each_miss by done. reflexivity.
Qed.

Lemma update_hit (id : string) (partial : Store.TaskPatch) (w : World)
    (before after : list jsval) (o : gmap string jsval) :
  stored w = before ++ JObj o :: after ->
  o !! "id" = Some (JStr id) ->
  Forall (fun t => Store.id_is id t = Ok false) (before ++ after) ->
  let t' := updated_entry partial (clock_iso rt (tick w)) o in
  Store.update rt id partial w
  = (Ok (Some t'), snd (Store.saveAll (before ++ t' :: after) (advance w))).
Proof.
  intros Hstored Ho [Hb Ha]%Forall_app. cbn zeta.
  unfold Store.update. unfold bind at 1. rewrite getAll_total, Hstored.
  unfold bind at 1. rewrite (update_each_hit id partial before after o) by done.
  reflexivity.
Qed.

Lemma update_throws (id : string) (partial : Store.TaskPatch) (w : World) :
  In JNull (stored w) ->
  exists e w', Store.update rt id partial w = (Throw e, w') /\ disk w' = disk w.
Proof.
  intros Hnull. unfold Store.update. unfold bind at 1. rewrite getAll_total.
  unfold bind at 1.
  pose proof (update_each_disk id partial (stored w) None w) as Hdisk.
  destruct (update_each_null id partial (stored w) Hnull None w) as (e & w' & E).
  rewrite E in *. eauto.
Qed.

Lemma lookup_set_prop (k j : string) (x : option jsval) (o : gmap string jsval) :
  set_prop k x o !! j = if decide (k = j) then x else o !! j.
Proof.
  unfold set_prop. destruct x; case_decide; subst;
    rewrite ?lookup_insert_eq, ?lookup_delete_eq, ?lookup_insert_ne, ?lookup_delete_ne by done;
    reflexivity.
Qed.

Lemma lookup_spread_field {A} (k j : string) (inj : A -> jsval) (f : Store.field A)
    (o : gmap string jsval) :
  Store.spread_field k inj f o !! j
  = if decide (k = j) then merged inj f (o !! j) else o !! j.
Proof.
  destruct f; cbn [Store.spread_field merged].
  - by case_decide.
  - rewrite lookup_set_prop. by case_decide; subst.
Qed.

Lemma updated_entry_fields (partial : Store.TaskPatch) (now : string)
    (o : gmap string jsval) :
  let o' := <["updatedAt" := JStr now]> (Store.spread_patch partial o) in
  o' !! "updatedAt" = Some (JStr now) /\
  o' !! "title" = merged JStr (Store.p_title partial) (o !! "title") /\
  o' !! "description" = merged JStr (Store.p_description partial) (o !! "description") /\
  o' !! "done" = merged JBool (Store.p_done partial) (o !! "done") /\
  (forall k, k <> "title" -> k <> "description" -> k <> "updatedAt" -> k <> "done" ->
             o' !! k = o !! k).
Proof.
  cbn zeta. split; [apply lookup_insert_eq |].
  unfold Store.spread_patch.
  repeat split; intros;
    rewrite lookup_insert_ne by done;
    rewrite !lookup_spread_field;
    repeat case_decide; congruence.
Qed.


(** ** [remove] *)

Lemma filter_cb_nonnull (id : string) (items : list jsval) :
  forallb nonnull items = true ->
  filter_cb (Store.id_is_not id) items
  = Ok (List.filter (fun t => negb (has_id id t)) items).
Proof.
  induction items as [|t items IH]; [reflexivity |]. cbn [forallb].
  intros [Ht Hitems]%andb_prop. cbn [filter_cb List.filter].
  rewrite id_is_not_nonnull, IH by done. reflexivity.
Qed.

Lemma filter_cb_throws {A} (f : A -> result bool) (items : list A) (x : A)
    (e : js_error) :
  In x items -> f x = Throw e -> exists e', filter_cb f items = Throw e'.
Proof.
  induction items as [|t items IH]; [intros [] |]. intros [-> | Hin] Hx; cbn [filter_cb].
  - rewrite Hx. eauto.
  - destruct (f t); [| eauto]. destruct (IH Hin Hx) as [e' ->]. eauto.
Qed.

Lemma filter_twice (id : string) (items : list jsval) :
  List.filter (fun t => negb (has_id id t)) (List.filter (fun t => negb (has_id id t)) items)
  = List.filter (fun t => negb (has_id id t)) items.
Proof.
  induction items as [|t items IH]; [reflexivity |]. cbn [List.filter].
  destruct (negb (has_id id t)) eqn:E; [| exact IH].
  cbn [List.filter]. by rewrite E, IH.
Qed.

Lemma filter_all {A} (p : A -> bool) (items : list A) :
  forallb p items = true -> List.filter p items = items.
Proof.
  induction items as [|t items IH]; [reflexivity |]. cbn [forallb List.filter].
  intros [Ht Hitems]%andb_prop. by rewrite Ht, IH.
Qed.

Lemma forallb_filter {A} (p q : A -> bool) (items : list A) :
  forallb p items = true -> forallb p (List.filter q items) = true.
Proof.
  induction items as [|t items IH]; [done |]. cbn [forallb List.filter].
  intros [Ht Hitems]%andb_prop. destruct (q t); cbn [forallb]; rewrite ?Ht; auto.
Qed.

Lemma remove_nonnull (id : string) (w : World) :
  forallb nonnull (stored w) = true ->
  Store.remove id w
  = (Ok tt, snd (Store.saveAll (List.filter (fun t => negb (has_id id t)) (stored w)) w)).
Proof.
  intros Hn. unfold Store.remove. unfold bind at 1. rewrite getAll_total.
  unfold bind, lift. rewrite filter_cb_nonnull by done. reflexivity.
Qed.

Lemma remove_throws (id : string) (w : World) :
  In JNull (stored w) -> exists e, Store.remove id w = (Throw e, w).
Proof.
  intros Hnull.
  destruct (filter_cb_throws (Store.id_is_not id) _ JNull
              (TypeError "Cannot read properties of null") Hnull eq_refl) as [e He].
  exists e. unfold Store.remove, bind. rewrite getAll_total. unfold lift.
  rewrite He. reflexivity.
Qed.

(** C7. Whatever the collection, a second [remove] of the same id leaves
    it as the first left it, and a [remove] of an id no entry has leaves it
    as it was. On a collection of tasks (no null entry, whose [id] cannot be
    read) each call returns, the first leaves the collection without the
    entries of that id, and the second leaves the world exactly as it
    found it. *)
Theorem remove_idempotent (id : string) (w : World) :
  let w1 := snd (Store.remove id w) in
  let w2 := snd (Store.remove id w1) in
  stored w2 = stored w1 /\
  (forallb (fun t => negb (has_id id t)) (stored w) = true -> stored w1 = stored w) /\
  (forallb nonnull (stored w) = true ->
   Store.remove id w = (Ok tt, w1) /\
   Store.readAll w1
   = (Ok (List.filter (fun t => negb (has_id id t)) (stored w)), w1) /\
   Store.remove id w1 = (Ok tt, w1)).
Proof.
  cbn zeta. destruct (forallb nonnull (stored w)) eqn:Hn.
  - rewrite (remove_nonnull id w Hn). cbn [snd].
    assert (forallb nonnull
              (stored (snd (Store.saveAll
                              (List.filter (fun t => negb (has_id id t)) (stored w)) w)))
            = true) as Hn1 by (rewrite stored_saveAll; by apply forallb_filter).
    assert (Store.remove id
              (snd (Store.saveAll (List.filter (fun t => negb (has_id id t)) (stored w)) w))
            = (Ok tt,
               snd (Store.saveAll (List.filter (fun t => negb (has_id id t)) (stored w)) w)))
      as Hagain.
    { rewrite remove_nonnull by done. rewrite stored_saveAll, filter_twice.
      unfold Store.saveAll, setItem. cbn [snd disk tick]. by rewrite insert_insert_eq. }
    rewrite Hagain. cbn [snd]. split; [reflexivity |]. split.
    + intros Hmiss. rewrite stored_saveAll. by apply filter_all.
    + intros _. split; [reflexivity |]. split; [| reflexivity].
      unfold Store.readAll. apply getAll_saveAll.
  - destruct (remove_throws id w (forallb_nonnull_false _ Hn)) as [e He].
    rewrite He. cbn [snd]. rewrite He. cbn [snd]. split; [reflexivity |].
    split; [reflexivity | discriminate].
Qed.

End StoreFacts.

(* ===================================================================== *)
(** * Generated ids *)
(* ===================================================================== *)

Section Ids.

Variable rt : Runtime.

Lemma byte_hex_shape (b : Byte.byte) :
  String.length (Store.byte_hex b) = 2 /\ all_chars is_lower_hex (Store.byte_hex b) = true.
Proof. destruct b; split; reflexivity. Qed.

Lemma all_chars_append (p : ascii -> bool) (a b : string) :
  all_chars p (a +:+ b) = all_chars p a && all_chars p b.
Proof.
  induction a as [|c a IH]; [reflexivity |].
  change (p c && all_chars p (a +:+ b) = p c && all_chars p a && all_chars p b).
  rewrite IH. by rewrite andb_assoc.
Qed.

Lemma join_cons (x : string) (xs : list string) :
  Json.sep_by EmptyString (x :: xs) = x +:+ Json.sep_by EmptyString xs.
Proof. destruct xs; [by rewrite append_nil_r | reflexivity]. Qed.

Lemma hex_id_shape (bytes : list Byte.byte) :
  String.length (Json.sep_by EmptyString (map Store.byte_hex bytes)) = 2 * length bytes
  /\ all_chars is_lower_hex (Json.sep_by EmptyString (map Store.byte_hex bytes)) = true.
Proof.
  induction bytes as [|b bytes [IHl IHc]]; [done |].
  cbn [map]. rewrite join_cons, length_append, all_chars_append.
  destruct (byte_hex_shape b) as [-> ->]. rewrite IHl, IHc. cbn [length]. split; [lia | done].
Qed.

(** With Web Crypto the id is the sixteen bytes drawn, as 32 lower-case
    hex digits. *)
Lemma cryptoRandomId_crypto (draw : nat -> nat -> Byte.byte) (w : World) :
  crypto rt = Crypto draw ->
  exists id,
    Store.cryptoRandomId rt w = (Ok id, advance w) /\
    id = Json.sep_by EmptyString (map Store.byte_hex (map (draw (tick w)) (seq 0 16))) /\
    String.length id = 32 /\ all_chars is_lower_hex id = true.
Proof.
  intros Hc. eexists. split; [| split; [reflexivity |]].
  - unfold Store.cryptoRandomId, Store.random_bytes, try_catch, bind, ret. rewrite Hc.
    reflexivity.
  - destruct (hex_id_shape (map (draw (tick w)) (seq 0 16))) as [Hl Ha].
    rewrite Hl, Ha. done.
Qed.

(** The fallback runs when, and only when, [getRandomValues] throws. *)
Lemma cryptoRandomId_fallback (w : World) :
  crypto rt = CryptoThrows ->
  Store.cryptoRandomId rt w
  = (Ok (slice2 (random36 rt (tick w))
         +:+ Number_toString 36 (clock_ms rt (S (tick w)))),
     advance (advance w)).
Proof.
  intros Hc.
  unfold Store.cryptoRandomId, Store.random_bytes, try_catch, bind, ret, throw. rewrite Hc.
  reflexivity.
Qed.

(** Without a crypto object the optional chain skips the call, nothing is
    thrown, and the id is the sixteen zero bytes the array was born with. *)
Lemma cryptoRandomId_no_crypto (w : World) :
  crypto rt = NoCrypto ->
  Store.cryptoRandomId rt w = (Ok Sample.zero_id, w).
Proof.
  intros Hc.
  unfold Store.cryptoRandomId, Store.random_bytes, try_catch, bind, ret. rewrite Hc.
  reflexivity.
Qed.

Lemma task_id_get (t : jsval) (id : string) :
  get t "id" = Ok (Some (JStr id)) -> task_id t = Some id.
Proof.
  destruct t; try discriminate. cbn [get task_id]. by intros [= ->].
Qed.

Lemma create_no_crypto (task : Store.TaskInput) (w : World) :
  crypto rt = NoCrypto ->
  exists t w', Store.create rt task w = (Ok t, w') /\ task_id t = Some Sample.zero_id.
Proof.
  intros Hc. destruct (create_eval rt task w) as (id & w1 & Hid & Hcreate).
  rewrite cryptoRandomId_no_crypto in Hid by done. injection Hid as <- <-.
  eexists _, _. split; [exact Hcreate |].
  destruct (new_task_fields Sample.zero_id (clock_iso rt (tick w)) task) as (Hi & _).
  by apply task_id_get.
Qed.

End Ids.

(** C5, on the code. In a runtime without a crypto object, [create] after
    [create] returns a task whose id is the id of the task already in the
    collection. *)
Theorem create_reuses_id_without_crypto :
  exists t1 t2 w2,
    stored (Sample.one_task Sample.bare) = [t1] /\
    Store.create Sample.bare Sample.bread (Sample.one_task Sample.bare) = (Ok t2, w2) /\
    task_id t1 = Some Sample.zero_id /\
    task_id t2 = Some Sample.zero_id /\
    stored w2 = [t2; t1].
Proof.
  eexists _, _, _. split; [vm_compute; reflexivity |].
  split; [vm_compute; reflexivity |].
  split; [vm_compute; reflexivity |].
  split; vm_compute; reflexivity.
Qed.

(* ===================================================================== *)
(** * The Task Session *)
(* ===================================================================== *)

Section SessionFacts.

Variable rt : Runtime.

Lemma synced_stored (a : Session.App) :
  synced a <-> stored (Session.world a) = Session.tasks (Session.session a).
Proof.
  unfold synced, Store.readAll. rewrite getAll_total. split; [congruence |].
  by intros ->.
Qed.

Lemma mount_synced (w : World) : synced (Session.mount w).
Proof.
  apply synced_stored.
  unfold Session.mount, Session.load, bind, Session.setLoading, Session.setError,
    try_finally, try_catch, Session.on_world, Session.setTasks, Store.readAll.
  cbn [Session.world Session.session]. rewrite getAll_total. reflexivity.
Qed.

Lemma mount_world (w : World) : Session.world (Session.mount w) = w.
Proof.
  unfold Session.mount, Session.load, bind, Session.setLoading, Session.setError,
    try_finally, try_catch, Session.on_world, Session.setTasks, Store.readAll.
  cbn [Session.world Session.session]. rewrite getAll_total. reflexivity.
Qed.

Lemma updateTask_miss (id : string) (partial : Store.TaskPatch) (a : Session.App) :
  Forall (fun t => Store.id_is id t = Ok false) (stored (Session.world a)) ->
  Session.updateTask rt id partial a
  = (Ok tt, {| Session.world := snd (Store.saveAll (stored (Session.world a)) (Session.world a));
               Session.session := Session.session a |}).
Proof.
  intros Hmiss. unfold Session.updateTask, bind, Session.on_world.
  rewrite update_miss by done. reflexivity.
Qed.

Lemma misses_readable (id : string) (items : list jsval) :
  forallb (fun t => negb (has_id id t)) items = true ->
  forallb nonnull items = true ->
  Forall (fun t => Store.id_is id t = Ok false) items.
Proof.
  induction items as [|t items IH]; [constructor |]. cbn [forallb].
  intros [Ht Hitems]%andb_prop [Hn Hns]%andb_prop. constructor; [| by apply IH].
  rewrite id_is_nonnull by done. f_equal. by apply negb_true_iff.
Qed.

(** C6. When no entry has the id, [update] leaves the collection as it was
    and [updateTask] leaves the three cells, the mirror among them, as they
    were. On a collection of tasks (no null entry, whose [id] cannot be
    read) [update] returns [undefined] and [updateTask] returns. *)
Theorem update_missing_id (id : string) (partial : Store.TaskPatch) (a : Session.App) :
  forallb (fun t => negb (has_id id t)) (stored (Session.world a)) = true ->
  stored (snd (Store.update rt id partial (Session.world a))) = stored (Session.world a) /\
  Session.session (snd (Session.updateTask rt id partial a)) = Session.session a /\
  (forallb nonnull (stored (Session.world a)) = true ->
   exists w',
     Store.update rt id partial (Session.world a) = (Ok None, w') /\
     Store.readAll w' = (Ok (stored (Session.world a)), w') /\
     Session.updateTask rt id partial a
     = (Ok tt, {| Session.world := w'; Session.session := Session.session a |})).
Proof.
  intros Hmiss. destruct (forallb nonnull (stored (Session.world a))) eqn:Hn.
  - pose proof (misses_readable id _ Hmiss Hn) as Hread.
    rewrite updateTask_miss, update_miss by done. cbn [snd Session.session].
    split; [apply stored_saveAll |]. split; [reflexivity |]. intros _.
    eexists. split; [reflexivity |]. split; [| reflexivity].
    unfold Store.readAll. apply getAll_saveAll.
  - destruct (update_throws rt id partial _ (forallb_nonnull_false _ Hn))
      as (e & w' & Hu & Hdisk).
    unfold Session.updateTask, bind, Session.on_world. rewrite Hu.
    cbn [snd Session.session]. split; [by apply stored_disk |].
    split; [reflexivity | discriminate].
Qed.

(** ** The statistics *)

Lemma filter_done_typed (items : list jsval) :
  forallb done_typed items = true ->
  filter_cb (fun t => result_map truthy (get t "done")) items
  = Ok (List.filter is_done items).
Proof.
  induction items as [|t items IH]; [reflexivity |]. cbn [forallb].
  intros [Ht Hitems]%andb_prop. cbn [filter_cb List.filter].
  rewrite IH by done. unfold done_typed, is_done in *.
  destruct (get t "done") as [[[| [] | | | |]|]|]; try discriminate Ht; reflexivity.
Qed.

Lemma filter_cb_length {A} (f : A -> result bool) (items kept : list A) :
  filter_cb f items = Ok kept -> length kept <= length items.
Proof.
  revert kept. induction items as [|t items IH]; intros kept E.
  - injection E as <-. done.
  - cbn [filter_cb] in E. destruct (f t) as [keep|]; [| discriminate].
    destruct (filter_cb f items) as [rest|]; [| discriminate].
    injection E as <-. specialize (IH rest eq_refl).
    destruct keep; cbn [length]; lia.
Qed.

(** C9. Whatever statistics the session derives from its mirror, [total]
    is the mirror's length and the sum of [done] and [pending]; and from a
    mirror of tasks it does derive them, [done] counting the tasks whose
    [done] is [true]. *)
Theorem stats_invariant (tasks : list jsval) :
  (forall s, Session.stats tasks = Ok s ->
     Session.total s = (Session.done s + Session.pending s)%Z /\
     Session.total s = Z.of_nat (length tasks) /\
     (0 <= Session.done s <= Session.total s)%Z) /\
  (forallb done_typed tasks = true ->
   exists s, Session.stats tasks = Ok s /\
             Session.done s = Z.of_nat (length (List.filter is_done tasks))).
Proof.
  split.
  - intros s. unfold Session.stats.
    destruct (filter_cb _ tasks) as [finished|e] eqn:E; [| discriminate].
    intros [= <-]. cbn. apply filter_cb_length in E. repeat split; lia.
  - intros Htyped. unfold Session.stats. rewrite filter_done_typed by done.
    eexists. split; reflexivity.
Qed.

(** ** The mirror and the store *)

Lemma ids_miss (id : string) (items : list jsval) :
  forallb nonnull items = true -> id ∉ ids items ->
  Forall (fun t => Store.id_is id t = Ok false) items.
Proof.
  induction items as [|t items IH]; [constructor |]. cbn [forallb].
  intros [Ht Hitems]%andb_prop Hid. unfold ids in *. cbn [omap list_omap] in Hid.
  constructor.
  - rewrite id_is_nonnull by done. f_equal. unfold has_id.
    destruct (task_id t) as [s|]; [| reflexivity].
    apply String.eqb_neq. intros ->. apply Hid. left.
  - apply IH; [done |]. intros Hin. apply Hid.
    destruct (task_id t); [right |]; done.
Qed.

(** With pairwise distinct ids, an id names no entry or exactly one. *)
Lemma distinct_split (id : string) (items : list jsval) :
  forallb nonnull items = true -> NoDup (ids items) ->
  Forall (fun t => Store.id_is id t = Ok false) items
  \/ exists before o after,
       items = before ++ JObj o :: after /\ o !! "id" = Some (JStr id)
       /\ Forall (fun t => Store.id_is id t = Ok false) (before ++ after).
Proof.
  induction items as [|t items IH]; [left; constructor |]. cbn [forallb].
  intros [Ht Hitems]%andb_prop Hnd.
  destruct (has_id id t) eqn:Hhit.
  - right. apply has_id_true in Hhit.
    unfold ids in Hnd. cbn [omap list_omap] in Hnd. rewrite Hhit in Hnd.
    inversion Hnd as [|? ? Hfresh Hnd']; subst.
    destruct t as [| | | | |o]; try discriminate Hhit.
    exists [], o, items. split; [reflexivity |]. split.
    + unfold task_id in Hhit. destruct (o !! "id") as [[]|]; congruence.
    + by apply ids_miss.
  - assert (NoDup (ids items)) as Hnd'.
    { unfold ids in *. cbn [omap list_omap] in Hnd.
      destruct (task_id t); [by inversion Hnd |]; done. }
    destruct (IH Hitems Hnd') as [Hmiss | (before & o & after & -> & Ho & Hmiss)].
    + left. constructor; [| done]. by rewrite id_is_nonnull, Hhit.
    + right. exists (t :: before), o, after. split; [reflexivity |]. split; [done |].
      cbn [app]. constructor; [| done]. by rewrite id_is_nonnull, Hhit.
Qed.

Lemma map_cb_replace (id : string) (t' : jsval) (before after : list jsval)
    (o : gmap string jsval) :
  Forall (fun t => Store.id_is id t = Ok false) (before ++ after) ->
  o !! "id" = Some (JStr id) ->
  map_cb (fun p => result_map (fun hit : bool => if hit then t' else p) (Store.id_is id p))
         (before ++ JObj o :: after)
  = Ok (before ++ t' :: after).
Proof.
  intros [Hb Ha]%Forall_app Ho.
  assert (forall l, Forall (fun t => Store.id_is id t = Ok false) l ->
            map_cb (fun p => result_map (fun hit : bool => if hit then t' else p)
                               (Store.id_is id p)) l = Ok l) as Hsame.
  { induction 1 as [|t l Ht _ IH]; [reflexivity |]. cbn [map_cb].
    rewrite Ht. cbn [result_map]. rewrite IH. reflexivity. }
  induction Hb as [|t before Ht _ IH]; cbn [app map_cb].
  - rewrite id_is_hit by done.
    cbn [result_map]. rewrite Hsame by done. reflexivity.
  - rewrite Ht. cbn [result_map]. rewrite IH. reflexivity.
Qed.

Lemma ids_replace (id : string) (before after : list jsval) (o o' : gmap string jsval) :
  o !! "id" = Some (JStr id) -> o' !! "id" = Some (JStr id) ->
  ids (before ++ JObj o' :: after) = ids (before ++ JObj o :: after).
Proof.
  intros Ho Ho'. unfold ids. rewrite !omap_app. cbn [omap list_omap task_id].
  by rewrite Ho, Ho'.
Qed.

Lemma ids_filter_NoDup (p : jsval -> bool) (items : list jsval) :
  NoDup (ids items) -> NoDup (ids (List.filter p items)).
Proof.
  unfold ids. induction items as [|t items IH]; [done |].
  cbn [omap list_omap List.filter]. intros Hnd.
  assert (forall s, s ∈ omap task_id (List.filter p items) -> s ∈ omap task_id items) as Hsub.
  { clear. intros s. induction items as [|t items IH]; [done |].
    cbn [List.filter omap list_omap]. destruct (p t); cbn [omap list_omap];
      destruct (task_id t); rewrite ?elem_of_cons; intuition. }
  destruct (p t); cbn [omap list_omap]; destruct (task_id t) as [s|].
  - inversion Hnd as [|? ? Hs Hnd']; subst. constructor; [| by apply IH].
    intros Hin. by apply Hs, Hsub.
  - by apply IH.
  - inversion Hnd; subst. by apply IH.
  - by apply IH.
Qed.

Lemma createTask_synced (input : Store.TaskInput) (a : Session.App) :
  synced a -> synced (snd (Session.createTask rt input a)).
Proof.
  rewrite !synced_stored. intros Hs.
  destruct (create_eval rt input (Session.world a)) as (id & w1 & _ & Hc). cbn zeta in Hc.
  unfold Session.createTask, bind, Session.on_world, Session.setTasks.
  rewrite Hc. cbn [snd Session.world Session.session Session.tasks].
  rewrite stored_saveAll. by rewrite Hs.
Qed.

Lemma updateTask_synced (id : string) (partial : Store.TaskPatch) (a : Session.App) :
  synced a -> distinct_ids (Session.world a) ->
  synced (snd (Session.updateTask rt id partial a))
  /\ distinct_ids (Session.world (snd (Session.updateTask rt id partial a))).
Proof.
  unfold distinct_ids. rewrite !synced_stored. intros Hs Hnd.
  destruct (forallb nonnull (stored (Session.world a))) eqn:Hnn.
  - destruct (distinct_split id _ Hnn Hnd)
      as [Hmiss | (before & o & after & Hl & Ho & Hmiss)].
    + rewrite updateTask_miss by done.
      cbn [snd Session.world Session.session]. by rewrite stored_saveAll.
    + pose proof (update_hit rt id partial _ before after o Hl Ho Hmiss) as Hu.
      cbn zeta in Hu.
      destruct (updated_entry_fields partial (clock_iso rt (tick (Session.world a))) o)
        as (_ & _ & _ & _ & Hrest).
      cbn zeta in Hrest.
      unfold Session.updateTask, bind, Session.on_world, Session.setTasks.
      rewrite Hu. cbn [Session.session]. rewrite <- Hs, Hl.
      rewrite map_cb_replace by done.
      cbn [snd Session.world Session.session Session.tasks]. rewrite stored_saveAll.
      split; [done |]. unfold updated_entry.
      rewrite (ids_replace id before after o); [by rewrite <- Hl | done |].
      rewrite Hrest by done. exact Ho.
  - apply forallb_nonnull_false in Hnn.
    destruct (update_throws rt id partial _ Hnn) as (e & w' & Hu & Hdisk).
    unfold Session.updateTask, bind, Session.on_world. rewrite Hu.
    cbn [snd Session.world Session.session].
    rewrite (stored_disk w' (Session.world a)) by done. done.
Qed.

Lemma removeTask_synced (id : string) (a : Session.App) :
  synced a -> distinct_ids (Session.world a) ->
  synced (snd (Session.removeTask id a))
  /\ distinct_ids (Session.world (snd (Session.removeTask id a))).
Proof.
  unfold distinct_ids. rewrite !synced_stored. intros Hs Hnd.
  destruct (forallb nonnull (stored (Session.world a))) eqn:Hnn.
  - unfold Session.removeTask, bind, Session.on_world, Session.setTasks.
    rewrite remove_nonnull by done. cbn [Session.session]. rewrite <- Hs.
    rewrite filter_cb_nonnull by done.
    cbn [snd Session.world Session.session Session.tasks].
    rewrite stored_saveAll. split; [done |]. by apply ids_filter_NoDup.
  - apply forallb_nonnull_false in Hnn.
    destruct (remove_throws id _ Hnn) as [e He].
    unfold Session.removeTask, bind, Session.on_world. rewrite He.
    cbn [snd Session.world Session.session]. done.
Qed.

(** C1, as amended. After the mount's load and any operations awaited one
    by one, the mirror is what [readAll] returns, provided no two persisted
    tasks share an id at load and every [createTask] draws an id that is
    not in use. *)
Theorem mirror_matches_store (w : World) (os : list Session.operation) :
  distinct_ids w ->
  collision_free rt os (Session.mount w) ->
  synced (Session.perform_all rt os (Session.mount w)).
Proof.
  intros Hw Hfree.
  assert (synced (Session.mount w)) as Hs by apply mount_synced.
  assert (distinct_ids (Session.world (Session.mount w))) as Hd
    by (by rewrite mount_world).
  revert Hs Hd Hfree. generalize (Session.mount w) as a.
  induction os as [|o os IH]; intros a Hs Hd Hfree; [exact Hs |].
  cbn [Session.perform_all]. destruct Hfree as [Hnew Hfree].
  apply IH; [| | exact Hfree]; destruct o as [input | id partial | id];
    cbn [Session.perform] in *.
  - by apply createTask_synced.
  - by apply updateTask_synced.
  - by apply removeTask_synced.
  - exact Hnew.
  - by apply updateTask_synced.
  - by apply removeTask_synced.
Qed.

End SessionFacts.

(* ===================================================================== *)
(** * The statements at sample inputs *)
(* ===================================================================== *)

(** C1 as stated fails. When two created tasks share an id, here because
    the random source drew the same bytes twice, [update] of that id
    rewrites both entries of the store, each from its own fields, while
    [updateTask] puts the one task [update] returned in both places of the
    mirror. *)
Lemma mirror_diverges_on_shared_id :
  ~ synced (Session.perform_all Sample.web_repeating
              [Session.CreateTask Sample.milk;
               Session.CreateTask Sample.bread;
               Session.UpdateTask Sample.repeated_id Sample.mark_done]
              (Session.mount Sample.empty_world)).
Proof.
  intros H. apply synced_stored in H.
  apply (f_equal (map (fun t => get t "title"))) in H.
  vm_compute in H. discriminate H.
Qed.

(** The same divergence without a crypto object, where every id is the
    all-zero one. *)
Example mirror_diverges_without_crypto :
  let a := Session.perform_all Sample.bare
             [Session.CreateTask Sample.milk;
              Session.CreateTask Sample.bread;
              Session.UpdateTask Sample.zero_id Sample.mark_done]
             (Session.mount Sample.empty_world) in
  map (fun t => get t "title") (Session.tasks (Session.session a))
  = [Ok (Some (JStr "Buy milk")); Ok (Some (JStr "Buy milk"))]
  /\ map (fun t => get t "title") (stored (Session.world a))
     = [Ok (Some (JStr "Bake bread")); Ok (Some (JStr "Buy milk"))].
Proof. vm_compute. split; reflexivity. Qed.

Lemma mirror_matches_store_witness :
  synced (Session.perform_all Sample.web
            [Session.CreateTask Sample.milk;
             Session.CreateTask Sample.bread;
             Session.UpdateTask Sample.first_web_id Sample.mark_done;
             Session.RemoveTask Sample.first_web_id]
            (Session.mount Sample.empty_world)).
Proof.
  apply mirror_matches_store.
  - unfold distinct_ids. by_evaluation.
  - cbn [collision_free]. unfold distinct_ids. repeat split; by_evaluation.
Defined.



Lemma readAll_degrades_witness :
  Store.readAll (Sample.world_with Sample.bare_string)
  = (Ok [], Sample.world_with Sample.bare_string).
Proof.
  apply readAll_degrades. right. right.
  exists Sample.bare_string, (JStr "oops").
  split; [vm_compute; reflexivity |]. split; vm_compute; reflexivity.
Defined.

Lemma update_missing_id_witness :
  let a := {| Session.world := Sample.one_task Sample.web;
              Session.session := Session.initial |} in
  exists w',
    Store.update Sample.web "no-such-id" Sample.mark_done (Session.world a) = (Ok None, w') /\
    Store.readAll w' = (Ok (stored (Session.world a)), w') /\
    Session.updateTask Sample.web "no-such-id" Sample.mark_done a
    = (Ok tt, {| Session.world := w'; Session.session := Session.initial |}).
Proof.
  intros a.
  apply (update_missing_id Sample.web "no-such-id" Sample.mark_done a);
    vm_compute; reflexivity.
Defined.

Lemma remove_idempotent_witness :
  let w1 := snd (Store.remove Sample.first_web_id (Sample.two_tasks Sample.web)) in
  Store.remove Sample.first_web_id (Sample.two_tasks Sample.web) = (Ok tt, w1) /\
  Store.readAll w1
  = (Ok (List.filter (fun t => negb (has_id Sample.first_web_id t))
           (stored (Sample.two_tasks Sample.web))), w1) /\
  Store.remove Sample.first_web_id w1 = (Ok tt, w1).
Proof.
  apply (remove_idempotent Sample.first_web_id (Sample.two_tasks Sample.web)).
  vm_compute. reflexivity.
Defined.

Lemma stats_invariant_witness :
  exists s,
    Session.stats (stored (Sample.two_tasks Sample.web)) = Ok s /\
    Session.done s
    = Z.of_nat (length (List.filter is_done (stored (Sample.two_tasks Sample.web)))).
Proof.
  apply (proj2 (stats_invariant (stored (Sample.two_tasks Sample.web)))).
  vm_compute. reflexivity.
Defined.


(** The scenario of the specification: create, mark done, remove. *)
Example buy_milk_scenario :
  let a0 := Session.mount Sample.empty_world in
  let a1 := Session.perform_all Sample.web [Session.CreateTask Sample.milk] a0 in
  let a2 := Session.perform_all Sample.web
              [Session.UpdateTask Sample.first_web_id Sample.mark_done] a1 in
  let a3 := Session.perform_all Sample.web [Session.RemoveTask Sample.first_web_id] a2 in
  map (fun t => (get t "title", get t "done", get t "description", get t "updatedAt"))
      (stored (Session.world a1))
  = [(Ok (Some (JStr "Buy milk")), Ok (Some (JBool false)), Ok None,
      Ok (Some (JStr "2024-05-01T10:00:00.000Z")))]
  /\ map (fun t => (get t "title", get t "done", get t "description", get t "updatedAt"))
         (stored (Session.world a2))
     = [(Ok (Some (JStr "Buy milk")), Ok (Some (JBool true)), Ok None,
         Ok (Some (JStr "2024-05-01T10:00:00.002Z")))]
  /\ stored (Session.world a3) = []
  /\ Session.stats (Session.tasks (Session.session a2))
     = Ok {| Session.total := 1; Session.done := 1; Session.pending := 0 |}.
Proof. vm_compute. repeat split; reflexivity. Qed.

Example parse_sample :
  Json.parse "[ {} , [1, -20, true],null ]"
  = Some (Json.TArr [Json.TObj [];
                     Json.TArr [Json.TNum 1; Json.TNum (-20); Json.TBool true];
                     Json.TNull]).
Proof. vm_compute. reflexivity. Qed.

(* ===================================================================== *)
(** * Further properties of the store *)
(* ===================================================================== *)

Section Lookups.

Variable rt : Runtime.

Lemma readById_eval (id : string) (w : World) :
  Store.readById id w = (find_cb (Store.id_is id) (stored w), w).
Proof. unfold Store.readById, bind. rewrite getAll_total. reflexivity. Qed.

Lemma find_cb_sound (id : string) (items : list jsval) (t : jsval) :
  find_cb (Store.id_is id) items = Ok (Some t) -> In t items /\ task_id t = Some id.
Proof.
  induction items as [|x items IH]; [discriminate |]. cbn [find_cb].
  destruct (Store.id_is id x) as [[]|] eqn:E; [| | discriminate].
  - intros [= ->]. split; [by left |]. apply id_is_Ok in E as [_ E].
    by apply has_id_true.
  - intros H. destruct (IH H). split; [by right | done].
Qed.

Lemma find_cb_none (id : string) (items : list jsval) :
  find_cb (Store.id_is id) items = Ok None ->
  forallb (fun t => negb (has_id id t)) items = true.
Proof.
  induction items as [|x items IH]; [done |]. cbn [find_cb forallb].
  destruct (Store.id_is id x) as [[]|] eqn:E; [discriminate | | discriminate].
  intros H. apply id_is_Ok in E as [_ ->]. by rewrite IH.
Qed.

Lemma find_cb_nonnull (id : string) (items : list jsval) :
  forallb nonnull items = true ->
  find_cb (Store.id_is id) items = Ok (List.find (has_id id) items).
Proof.
  induction items as [|x items IH]; [reflexivity |]. cbn [forallb].
  intros [Hx Hitems]%andb_prop. cbn [find_cb List.find].
  rewrite id_is_nonnull by done. destruct (has_id id x); [reflexivity | by apply IH].
Qed.

(** X1. [readById] leaves the world alone; a task it returns is an entry
    of the collection and has the id; when it returns [undefined] no entry
    has the id; and on a collection of tasks it returns the first entry of
    the id. *)
Theorem readById_finds (id : string) (w : World) :
  snd (Store.readById id w) = w /\
  (forall t, fst (Store.readById id w) = Ok (Some t) ->
             In t (stored w) /\ task_id t = Some id) /\
  (fst (Store.readById id w) = Ok None ->
   forallb (fun t => negb (has_id id t)) (stored w) = true) /\
  (forallb nonnull (stored w) = true ->
   fst (Store.readById id w) = Ok (List.find (has_id id) (stored w))).
Proof.
  rewrite readById_eval. cbn [fst snd]. split; [reflexivity |].
  split; [intros t; apply find_cb_sound |].
  split; [apply find_cb_none | apply find_cb_nonnull].
Qed.

(** X2. The task [create] returns is the one [readById] returns for its
    id afterwards, whatever the collection held before. *)
Theorem readById_after_create (task : Store.TaskInput) (w : World) :
  exists t id w',
    Store.create rt task w = (Ok t, w') /\
    task_id t = Some id /\
    Store.readById id w' = (Ok (Some t), w').
Proof.
  destruct (create_eval rt task w) as (id & w1 & _ & Hc). cbn zeta in Hc.
  destruct (new_task_fields id (clock_iso rt (tick w)) task) as (Hid & _).
  cbn zeta in Hid.
  eexists _, id, _. split; [exact Hc |]. split; [by apply task_id_get |].
  rewrite readById_eval, stored_saveAll. cbn [find_cb].
  unfold Store.id_is. rewrite Hid. cbn [result_map strict_eq_string].
  by rewrite String.eqb_refl.
Qed.

(** X3. [create] does not disturb the lookup of any other id. *)
Theorem readById_other_after_create (task : Store.TaskInput) (w : World) (id' : string) :
  (forall t, fst (Store.create rt task w) = Ok t -> task_id t <> Some id') ->
  fst (Store.readById id' (snd (Store.create rt task w)))
  = fst (Store.readById id' w).
Proof.
  intros Hother.
  destruct (create_eval rt task w) as (id & w1 & _ & Hc). cbn zeta in Hc.
  destruct (new_task_fields id (clock_iso rt (tick w)) task) as (Hid & _).
  cbn zeta in Hid. rewrite Hc in *. cbn [fst snd] in *.
  rewrite !readById_eval, stored_saveAll. cbn [fst find_cb].
  unfold Store.id_is at 1. rewrite Hid. cbn [result_map strict_eq_string].
  destruct (String.eqb_spec id id') as [-> | _]; [| reflexivity].
  destruct (Hother _ eq_refl). by apply task_id_get.
Qed.

Lemma filter_no_hit (id : string) (items : list jsval) :
  forallb (fun t => negb (has_id id t))
          (List.filter (fun t => negb (has_id id t)) items) = true.
Proof.
  induction items as [|x items IH]; [done |]. cbn [List.filter].
  destruct (negb (has_id id x)) eqn:E; [| exact IH]. cbn [forallb]. by rewrite E, IH.
Qed.

Lemma find_no_hit (id : string) (items : list jsval) :
  forallb (fun t => negb (has_id id t)) items = true ->
  List.find (has_id id) items = None.
Proof.
  induction items as [|x items IH]; [done |]. cbn [forallb List.find].
  intros [Hx Hitems]%andb_prop. apply negb_true_iff in Hx. rewrite Hx. by apply IH.
Qed.

(** X4. After [remove] of an id from a collection of tasks no entry has
    the id, however many had it, and [readById] of it returns
    [undefined]. *)
Theorem readById_after_remove (id : string) (w : World) :
  forallb nonnull (stored w) = true ->
  let w1 := snd (Store.remove id w) in
  forallb (fun t => negb (has_id id t)) (stored w1) = true /\
  Store.readById id w1 = (Ok None, w1).
Proof.
  intros Hn. cbn zeta. rewrite remove_nonnull by done. cbn [snd].
  rewrite readById_eval, stored_saveAll. split; [apply filter_no_hit |].
  rewrite find_cb_nonnull by (by apply forallb_filter).
  by rewrite find_no_hit by apply filter_no_hit.
Qed.

Lemma has_id_two (id id' : string) (t : jsval) :
  id <> id' -> has_id id' t = true -> has_id id t = false.
Proof.
  intros Hne H. apply has_id_true in H. unfold has_id. rewrite H.
  by apply String.eqb_neq.
Qed.

Lemma find_filter_other (id id' : string) (items : list jsval) :
  id <> id' ->
  List.find (has_id id') (List.filter (fun t => negb (has_id id t)) items)
  = List.find (has_id id') items.
Proof.
  intros Hne. induction items as [|x items IH]; [reflexivity |].
  cbn [List.filter List.find]. destruct (has_id id' x) eqn:E'.
  - rewrite (has_id_two id id' x Hne E'). cbn [negb List.find]. by rewrite E'.
  - destruct (negb (has_id id x)); [cbn [List.find]; by rewrite E' | done].
Qed.

(** X5. [remove] of one id does not disturb the lookup of another: on a
    collection of tasks, [readById] of any other id returns after the
    [remove] what it returned before. *)
Theorem readById_other_after_remove (id id' : string) (w : World) :
  forallb nonnull (stored w) = true ->
  id <> id' ->
  fst (Store.readById id' (snd (Store.remove id w))) = fst (Store.readById id' w).
Proof.
  intros Hn Hne. rewrite remove_nonnull by done. cbn [snd].
  rewrite !readById_eval, stored_saveAll. cbn [fst].
  rewrite !find_cb_nonnull by (done || by apply forallb_filter).
  by rewrite find_filter_other.
Qed.

(** X6. Creating a task and removing it again gives the collection back,
    when no entry had the id the task was given. *)
Theorem remove_after_create (task : Store.TaskInput) (w : World) :
  forallb nonnull (stored w) = true ->
  (forall t, fst (Store.create rt task w) = Ok t ->
             forall id, task_id t = Some id ->
                        forallb (fun x => negb (has_id id x)) (stored w) = true) ->
  exists t id w1 w2,
    Store.create rt task w = (Ok t, w1) /\
    task_id t = Some id /\
    Store.remove id w1 = (Ok tt, w2) /\
    Store.readAll w2 = (Ok (stored w), w2).
Proof.
  intros Hn Hfresh.
  destruct (create_eval rt task w) as (id & w1 & _ & Hc). cbn zeta in Hc.
  destruct (new_task_fields id (clock_iso rt (tick w)) task) as (Hid & _).
  cbn zeta in Hid. apply task_id_get in Hid.
  rewrite Hc in Hfresh. specialize (Hfresh _ eq_refl id Hid).
  eexists _, id, _, _. split; [exact Hc |]. split; [exact Hid |].
  assert (forallb nonnull
            (stored (snd (Store.saveAll
                            (new_task id (clock_iso rt (tick w)) task :: stored w) w1)))
          = true) as Hn1.
  { rewrite stored_saveAll. cbn [forallb]. by rewrite Hn. }
  split; [by apply remove_nonnull |].
  unfold Store.readAll. rewrite getAll_saveAll, stored_saveAll. cbn [List.filter].
  apply has_id_true in Hid. rewrite Hid. cbn [negb]. by rewrite filter_all.
Qed.

End Lookups.

Section Rewrites.

Variable rt : Runtime.

Lemma own_props_has_id (id : string) (t : jsval) :
  has_id id t = true -> own_props t !! "id" = Some (JStr id).
Proof.
  intros H. apply has_id_true in H. destruct t as [| | | | |o]; try discriminate H.
  cbn [own_props task_id] in *. destruct (o !! "id") as [[]|]; congruence.
Qed.

Lemma updated_entry_id (partial : Store.TaskPatch) (now : string)
    (o : gmap string jsval) :
  task_id (updated_entry partial now o) = task_id (JObj o)
  /\ get (updated_entry partial now o) "createdAt" = get (JObj o) "createdAt".
Proof.
  destruct (updated_entry_fields partial now o) as (_ & _ & _ & _ & Hrest).
  cbn zeta in Hrest. unfold updated_entry. cbn [task_id get].
  rewrite !Hrest by done. done.
Qed.

(** [update]'s pass over a collection of tasks: every entry is rewritten
    or kept, and the captured variable ends as the last rewritten entry, or
    as it began when none was. *)
Lemma update_each_shape (id : string) (partial : Store.TaskPatch) (items : list jsval) :
  forallb nonnull items = true ->
  forall u w, exists items' u' w',
    Store.update_each rt id partial items u w = (Ok (items', u'), w') /\
    disk w' = disk w /\
    Forall2 (rewritten id partial) items items' /\
    (forallb (fun t => negb (has_id id t)) items = true -> u' = u) /\
    (forallb (fun t => negb (has_id id t)) items = false ->
     exists t', u' = Some t' /\ In t' items' /\ task_id t' = Some id).
Proof.
  induction items as [|t items IH]; intros Hn u w.
  - eexists _, _, _. split; [reflexivity |]. split; [reflexivity |].
    split; [constructor |]. split; [done | discriminate].
  - cbn [forallb] in Hn. apply andb_prop in Hn as [Ht Hitems].
    cbn [Store.update_each]. unfold bind at 1. unfold lift at 1.
    rewrite id_is_nonnull by done. destruct (has_id id t) eqn:Hhit.
    + unfold bind at 1. unfold new_Date_toISOString at 1. unfold bind at 1.
      match goal with |- context [Store.update_each rt id partial items ?u0 ?w0] =>
        destruct (IH Hitems u0 w0) as (items' & u' & w' & -> & Hdisk & Hall & Hmiss & Hhits)
      end.
      eexists _, _, _. split; [reflexivity |]. split; [exact Hdisk |]. split.
      { constructor; [| exact Hall]. unfold rewritten. rewrite Hhit. eauto. }
      cbn [forallb fst snd]. rewrite Hhit. cbn [negb andb].
      split; [discriminate |]. intros _.
      destruct (forallb (fun t0 => negb (has_id id t0)) items) eqn:Hrest.
      * rewrite (Hmiss eq_refl). eexists. split; [reflexivity |].
        split; [by left |].
        apply has_id_true in Hhit.
        destruct t as [| | | | |o]; try discriminate Hhit.
        destruct (updated_entry_id partial (clock_iso rt (tick w)) o) as [Hsame _].
        exact (eq_trans Hsame Hhit).
      * destruct (Hhits eq_refl) as (t' & -> & Hin & Hid).
        exists t'. split; [reflexivity |]. split; [by right | done].
    + unfold bind at 1.
      destruct (IH Hitems u w) as (items' & u' & w' & -> & Hdisk & Hall & Hmiss & Hhits).
      eexists _, _, _. split; [reflexivity |]. split; [exact Hdisk |]. split.
      { constructor; [| exact Hall]. unfold rewritten. by rewrite Hhit. }
      cbn [forallb fst snd]. rewrite Hhit. cbn [negb andb].
      split; [exact Hmiss |]. intros Hrest.
      destruct (Hhits Hrest) as (t' & -> & Hin & Hid).
      exists t'. split; [reflexivity |]. split; [by right | done].
Qed.

Lemma update_shape (id : string) (partial : Store.TaskPatch) (w : World) :
  forallb nonnull (stored w) = true ->
  exists items' r w',
    Store.update rt id partial w = (Ok r, w') /\
    stored w' = items' /\
    Forall2 (rewritten id partial) (stored w) items' /\
    (forallb (fun t => negb (has_id id t)) (stored w) = true -> r = None) /\
    (forallb (fun t => negb (has_id id t)) (stored w) = false ->
     exists t', r = Some t' /\ In t' items' /\ task_id t' = Some id).
Proof.
  intros Hn.
  destruct (update_each_shape id partial (stored w) Hn None w)
    as (items' & u' & w' & He & _ & Hall & Hmiss & Hhits).
  exists items', u', (snd (Store.saveAll items' w')).
  split.
  { unfold Store.update. unfold bind at 1. rewrite getAll_total.
    unfold bind at 1. rewrite He. reflexivity. }
  split; [apply stored_saveAll |]. done.
Qed.

Lemma rewritten_identity (id : string) (partial : Store.TaskPatch) (t t' : jsval) :
  nonnull t = true -> rewritten id partial t t' ->
  nonnull t' = true /\ task_id t' = task_id t
  /\ get t' "createdAt" = get t "createdAt".
Proof.
  unfold rewritten. intros Hn. destruct (has_id id t) eqn:Hhit.
  - intros [now ->]. apply has_id_true in Hhit.
    destruct t as [| | | | |o]; try discriminate Hhit. cbn [own_props].
    split; [reflexivity |]. apply updated_entry_id.
  - by intros ->.
Qed.

(** X7. [update] never adds, drops, reorders or renames an entry: the
    collection read afterwards has, place for place, the ids and the
    [createdAt] of the collection read before. *)
Theorem update_keeps_identity (id : string) (partial : Store.TaskPatch) (w : World) :
  Forall2 (fun t t' => task_id t' = task_id t
                       /\ get t' "createdAt" = get t "createdAt")
          (stored w) (stored (snd (Store.update rt id partial w))).
Proof.
  destruct (forallb nonnull (stored w)) eqn:Hn.
  - destruct (update_shape id partial w Hn) as (items' & r & w' & -> & <- & Hall & _).
    cbn [snd]. revert Hn. induction Hall as [|t t' items items' Ht _ IH]; [constructor |].
    cbn [forallb]. intros [Hnt Hn]%andb_prop.
    destruct (rewritten_identity id partial t t' Hnt Ht) as (_ & ? & ?).
    constructor; [done | by apply IH].
  - destruct (update_throws rt id partial w (forallb_nonnull_false _ Hn))
      as (e & w' & -> & Hdisk).
    cbn [snd]. rewrite (stored_disk w' w Hdisk).
    generalize (stored w) as items. clear. intros items.
    induction items; constructor; done.
Qed.

(** X8. On a collection of tasks [update] returns [undefined] exactly
    when no entry has the id; the task it returns otherwise has the id and
    is an entry of the collection read afterwards. *)
Theorem update_returns_a_match (id : string) (partial : Store.TaskPatch) (w : World) :
  forallb nonnull (stored w) = true ->
  exists r w',
    Store.update rt id partial w = (Ok r, w') /\
    (r = None <-> forallb (fun t => negb (has_id id t)) (stored w) = true) /\
    (forall t', r = Some t' -> task_id t' = Some id /\ In t' (stored w')).
Proof.
  intros Hn.
  destruct (update_shape id partial w Hn) as (items' & r & w' & Hu & <- & _ & Hmiss & Hhits).
  exists r, w'. split; [exact Hu |].
  destruct (forallb (fun t => negb (has_id id t)) (stored w)) eqn:E.
  - rewrite (Hmiss eq_refl). split; [done |]. discriminate.
  - destruct (Hhits eq_refl) as (t' & -> & Hin & Hid).
    split; [split; discriminate |]. by intros ? [= <-].
Qed.

Lemma find_rewritten_other (id id' : string) (partial : Store.TaskPatch)
    (items items' : list jsval) :
  id <> id' -> forallb nonnull items = true ->
  Forall2 (rewritten id partial) items items' ->
  forallb nonnull items' = true
  /\ List.find (has_id id') items' = List.find (has_id id') items.
Proof.
  intros Hne Hn Hall. revert Hn.
  induction Hall as [|t t' items items' Ht _ IH]; [done |].
  cbn [forallb List.find]. intros [Hnt Hn]%andb_prop.
  destruct (IH Hn) as [IHn IHf].
  destruct (rewritten_identity id partial t t' Hnt Ht) as (Hnt' & Hid & _).
  rewrite Hnt', IHn. split; [done |].
  assert (has_id id' t' = has_id id' t) as Hsame by (unfold has_id; by rewrite Hid).
  rewrite Hsame. destruct (has_id id' t) eqn:E'; [| exact IHf].
  unfold rewritten in Ht. rewrite (has_id_two id id' t Hne E') in Ht. by rewrite Ht.
Qed.

(** X9. [update] of one id does not disturb the lookup of another: on a
    collection of tasks, [readById] of any other id returns after the
    [update] the entry it returned before. *)
Theorem readById_other_after_update (id id' : string) (partial : Store.TaskPatch)
    (w : World) :
  forallb nonnull (stored w) = true ->
  id <> id' ->
  fst (Store.readById id' (snd (Store.update rt id partial w)))
  = fst (Store.readById id' w).
Proof.
  intros Hn Hne.
  destruct (update_shape id partial w Hn) as (items' & r & w' & -> & <- & Hall & _).
  cbn [snd]. rewrite !readById_eval. cbn [fst].
  destruct (find_rewritten_other id id' partial _ _ Hne Hn Hall) as [Hn' Hf].
  rewrite !find_cb_nonnull by done. by rewrite Hf.
Qed.

End Rewrites.

(* ===================================================================== *)
(** * Further properties of generated ids *)
(* ===================================================================== *)

Section HexIds.

Variable rt : Runtime.

Lemma unhex_byte_hex (b : Byte.byte) : unhex (Store.byte_hex b) = Some b.
Proof. destruct b; reflexivity. Qed.

Lemma byte_hex_two (b : Byte.byte) :
  exists c1 c2, Store.byte_hex b = String c1 (String c2 EmptyString).
Proof. destruct b; eexists _, _; reflexivity. Qed.

Lemma byte_hex_inj (b b' : Byte.byte) : Store.byte_hex b = Store.byte_hex b' -> b = b'.
Proof.
  intros H. apply (f_equal unhex) in H. rewrite !unhex_byte_hex in H. congruence.
Qed.

(** Two digits per byte: the joined text determines the bytes. *)
Lemma hex_join_inj (bs bs' : list Byte.byte) :
  length bs = length bs' ->
  Json.sep_by EmptyString (map Store.byte_hex bs)
  = Json.sep_by EmptyString (map Store.byte_hex bs') ->
  bs = bs'.
Proof.
  revert bs'. induction bs as [|b bs IH]; intros [|b' bs'] Hlen H; try discriminate Hlen;
    [reflexivity |].
  cbn [map] in H. rewrite !join_cons in H.
  destruct (byte_hex_two b) as (c1 & c2 & E), (byte_hex_two b') as (c1' & c2' & E').
  assert (Store.byte_hex b = Store.byte_hex b'
          /\ Json.sep_by EmptyString (map Store.byte_hex bs)
             = Json.sep_by EmptyString (map Store.byte_hex bs')) as [Hb Hrest].
  { rewrite E, E' in *.
    change (String ?x (String ?y EmptyString) +:+ ?r) with (String x (String y r)) in H.
    injection H as -> -> Hrest. done. }
  apply byte_hex_inj in Hb as ->. f_equal. apply IH; [| exact Hrest].
  cbn [length] in Hlen. lia.
Qed.

(** X10. With a random source that fills the array, the id is 32
    lower-case hex digits standing for the sixteen bytes drawn, two digits
    a byte: two ids are equal exactly when the bytes drawn are. *)
Theorem hex_ids_tell_draws_apart (draw : nat -> nat -> Byte.byte) (w w' : World) :
  crypto rt = Crypto draw ->
  exists id id',
    Store.cryptoRandomId rt w = (Ok id, advance w) /\
    Store.cryptoRandomId rt w' = (Ok id', advance w') /\
    String.length id = 32 /\ all_chars is_lower_hex id = true /\
    (id = id' <-> drawn draw (tick w) = drawn draw (tick w')).
Proof.
  intros Hc.
  destruct (cryptoRandomId_crypto rt draw w Hc) as (id & Hid & -> & Hl & Hh).
  destruct (cryptoRandomId_crypto rt draw w' Hc) as (id' & Hid' & -> & _).
  eexists _, _. split; [exact Hid |]. split; [exact Hid' |].
  split; [exact Hl |]. split; [exact Hh |]. unfold drawn. split.
  - apply hex_join_inj. by rewrite !length_map.
  - by intros ->.
Qed.

End HexIds.

(* ===================================================================== *)
(** * Further properties of the session *)
(* ===================================================================== *)

Section SessionMore.

Variable rt : Runtime.


(** X12. [load] replaces the mirror by what the store holds, whatever the
    mirror was, and ends with [loading] off and [error] cleared, also when
    the blob does not parse. *)
Theorem load_resyncs (a : Session.App) :
  exists a',
    Session.load a = (Ok tt, a') /\
    Session.world a' = Session.world a /\
    synced a' /\
    Session.loading (Session.session a') = false /\
    Session.error (Session.session a') = None.
Proof.
  eexists. split.
  { unfold Session.load, bind, Session.setLoading, Session.setError,
      try_finally, try_catch, Session.on_world, Session.setTasks, Store.readAll.
    cbn [Session.world Session.session]. rewrite getAll_total. reflexivity. }
  cbn [Session.world Session.session Session.loading Session.error].
  split; [reflexivity |]. split; [| done].
  apply synced_stored. reflexivity.
Qed.

(** X13. [clear] returns from any state, deletes the key, and leaves the
    mirror empty and equal to what [readAll] returns; the statistics are
    then all zero. *)
Theorem clear_empties (a : Session.App) :
  exists a',
    Session.clear a = (Ok tt, a') /\
    disk (Session.world a') !! Store.STORAGE_KEY = None /\
    Session.tasks (Session.session a') = [] /\
    synced a' /\
    Session.stats (Session.tasks (Session.session a'))
    = Ok {| Session.total := 0; Session.done := 0; Session.pending := 0 |}.
Proof.
  eexists. split; [reflexivity |].
  cbn [Session.world Session.session Session.tasks disk].
  split; [apply lookup_delete_eq |]. split; [reflexivity |]. split; [| reflexivity].
  unfold synced, Store.readAll, Store.getAll, bind, getItem.
  cbn [Session.world Session.session Session.tasks disk].
  by rewrite lookup_delete_eq.
Qed.

Lemma removeTask_keeps_sync (id : string) (a : Session.App) :
  synced a -> synced (snd (Session.removeTask id a)).
Proof.
  rewrite !synced_stored. intros Hs.
  destruct (forallb nonnull (stored (Session.world a))) eqn:Hnn.
  - unfold Session.removeTask, bind, Session.on_world, Session.setTasks.
    rewrite remove_nonnull by done. cbn [Session.session]. rewrite <- Hs.
    rewrite filter_cb_nonnull by done.
    cbn [snd Session.world Session.session Session.tasks].
    by rewrite stored_saveAll.
  - apply forallb_nonnull_false in Hnn.
    destruct (remove_throws id _ Hnn) as [e He].
    unfold Session.removeTask, bind, Session.on_world. rewrite He.
    cbn [snd Session.world Session.session]. done.
Qed.

(** X14. [createTask] and [removeTask] keep a mirror that agrees with the
    store in agreement, shared ids or not: of the three operations only
    [updateTask] needs the ids to be distinct. *)
Theorem create_and_remove_keep_sync (a : Session.App) (input : Store.TaskInput)
    (id : string) :
  synced a ->
  synced (snd (Session.createTask rt input a))
  /\ synced (snd (Session.removeTask id a)).
Proof.
  intros Hs. split; [by apply createTask_synced | by apply removeTask_keeps_sync].
Qed.

(** X15. When an entry of the collection is [null], [updateTask] and
    [removeTask] reject, and leave the store's key and the three cells as
    they were. *)
Theorem rejected_operations_change_nothing (a : Session.App) (id : string)
    (partial : Store.TaskPatch) :
  In JNull (stored (Session.world a)) ->
  (exists e a',
     Session.updateTask rt id partial a = (Throw e, a') /\
     disk (Session.world a') = disk (Session.world a) /\
     Session.session a' = Session.session a) /\
  (exists e,
     Session.removeTask id a = (Throw e, a)).
Proof.
  intros Hnull. split.
  - destruct (update_throws rt id partial _ Hnull) as (e & w' & Hu & Hdisk).
    exists e. eexists. unfold Session.updateTask, bind, Session.on_world. rewrite Hu.
    split; [reflexivity |]. done.
  - destruct (remove_throws id _ Hnull) as [e He].
    exists e. unfold Session.removeTask, bind, Session.on_world. rewrite He.
    by destruct a.
Qed.

(** ** The statistics, again *)

Lemma filter_split_length {A} (p : A -> bool) (items : list A) :
  length (List.filter p items) + length (List.filter (fun x => negb (p x)) items)
  = length items.
Proof.
  induction items as [|x items IH]; [reflexivity |]. cbn [List.filter].
  destruct (p x); cbn [negb length]; lia.
Qed.

(** X16. From a mirror of tasks, [pending] is the number of tasks whose
    [done] is not [true]. *)
Theorem pending_counts_the_rest (tasks : list jsval) :
  forallb done_typed tasks = true ->
  exists s,
    Session.stats tasks = Ok s /\
    Session.pending s = Z.of_nat (length (List.filter is_pending tasks)).
Proof.
  intros Htyped. unfold Session.stats. rewrite filter_done_typed by done.
  eexists. split; [reflexivity |]. cbn [Session.pending].
  pose proof (filter_split_length is_done tasks) as Hsplit.
  unfold is_pending. lia.
Qed.

(** X17. [createTask] on a mirror of tasks raises [total] by one, and
    [done] by one exactly when the input says the task is done; a task
    created without [done] counts as pending. *)
Theorem createTask_moves_the_counts (input : Store.TaskInput) (a : Session.App) :
  forallb done_typed (Session.tasks (Session.session a)) = true ->
  exists s s',
    Session.stats (Session.tasks (Session.session a)) = Ok s /\
    Session.stats (Session.tasks (Session.session (snd (Session.createTask rt input a))))
    = Ok s' /\
    Session.total s' = (Session.total s + 1)%Z /\
    Session.done s'
    = (Session.done s + if default false (Store.done input) then 1 else 0)%Z /\
    Session.pending s'
    = (Session.pending s + if default false (Store.done input) then 0 else 1)%Z.
Proof.
  intros Htyped.
  destruct (create_eval rt input (Session.world a)) as (id & w1 & _ & Hc). cbn zeta in Hc.
  destruct (new_task_fields id (clock_iso rt (tick (Session.world a))) input)
    as (_ & _ & _ & _ & _ & Hdone).
  cbn zeta in Hdone.
  unfold Session.createTask, bind, Session.on_world, Session.setTasks. rewrite Hc.
  cbn [snd Session.session Session.tasks].
  unfold Session.stats. cbn [filter_cb]. rewrite Hdone. cbn [result_map truthy].
  rewrite filter_done_typed by done.
  destruct (default false (Store.done input));
    (eexists _, _; split; [reflexivity |]; split; [reflexivity |]);
    cbn [Session.total Session.done Session.pending length]; lia.
Qed.

End SessionMore.

(* ===================================================================== *)
(** * The fallback id *)
(* ===================================================================== *)

Section FallbackIds.

Variable rt : Runtime.

Lemma digit_value_char (d : N) : (d < 36)%N -> digit_value (digit_char d) = d.
Proof.
  intros Hd. unfold digit_value, digit_char.
  rewrite N_ascii_embedding by (destruct (d <? 10)%N; lia).
  destruct (d <? 10)%N eqn:E.
  - apply N.ltb_lt in E. replace (48 + d <? 58)%N with true by (symmetry; apply N.ltb_lt; lia).
    lia.
  - apply N.ltb_ge in E. replace (87 + d <? 58)%N with false by (symmetry; apply N.ltb_ge; lia).
    lia.
Qed.

Lemma radix_value_append (radix : N) (a b : string) (acc : N) :
  radix_value radix (a +:+ b) acc = radix_value radix b (radix_value radix a acc).
Proof.
  revert acc. induction a as [|c a IH]; intros acc; [reflexivity |].
  change (String c a +:+ b) with (String c (a +:+ b)). cbn [radix_value]. apply IH.
Qed.

Lemma pos_size_nat (p : positive) : N.of_nat (Pos.size_nat p) = N.pos (Pos.size p).
Proof. induction p; cbn [Pos.size_nat Pos.size]; lia. Qed.

Lemma size_nat_bound (n : N) : (n < 2 ^ N.of_nat (S (N.size_nat n)))%N.
Proof.
  pose proof (N.size_gt n) as H.
  assert (N.of_nat (N.size_nat n) = N.size n) as E
    by (destruct n; [reflexivity | apply pos_size_nat]).
  rewrite Nat2N.inj_succ, E, N.pow_succ_r'. lia.
Qed.

(** The digits [to_radix] puts in front of [acc] read back as the number,
    when the fuel covers its bits. *)
Lemma to_radix_value (radix : N) (fuel : nat) :
  (2 <= radix <= 36)%N ->
  forall n acc, (n < 2 ^ N.of_nat fuel)%N ->
    exists ds, to_radix radix fuel n acc = ds +:+ acc /\ radix_value radix ds 0 = n.
Proof.
  intros Hr. induction fuel as [|fuel IH]; intros n acc Hn.
  - exists EmptyString. cbn in *. split; [reflexivity | lia].
  - cbn [to_radix].
    assert (n mod radix < 36)%N as Hd by (pose proof (N.mod_upper_bound n radix); lia).
    assert (n = radix * (n / radix) + n mod radix)%N as Hdiv by (apply N.div_mod; lia).
    destruct (n / radix =? 0)%N eqn:Hq.
    + apply N.eqb_eq in Hq. exists (String (digit_char (n mod radix)) EmptyString).
      split; [reflexivity |]. cbn [radix_value]. rewrite digit_value_char by done. lia.
    + apply N.eqb_neq in Hq.
      destruct (IH (n / radix)%N (String (digit_char (n mod radix)) acc)) as (ds & -> & Hv).
      { apply N.Div0.div_lt_upper_bound.
        rewrite Nat2N.inj_succ, N.pow_succ_r' in Hn.
        assert (2 * 2 ^ N.of_nat fuel <= radix * 2 ^ N.of_nat fuel)%N
          by (apply N.mul_le_mono_r; lia).
        lia. }
      exists (ds +:+ String (digit_char (n mod radix)) EmptyString). split.
      * by rewrite append_assoc.
      * rewrite radix_value_append, Hv. cbn [radix_value].
        rewrite digit_value_char by done. lia.
Qed.

Lemma Number_toString_value (radix n : N) :
  (2 <= radix <= 36)%N -> radix_value radix (Number_toString radix n) 0 = n.
Proof.
  intros Hr. unfold Number_toString.
  destruct (to_radix_value radix (S (N.size_nat n)) Hr n EmptyString (size_nat_bound n))
    as (ds & -> & Hv).
  by rewrite append_nil_r.
Qed.

(** X18. When [getRandomValues] throws, the id is the random text without
    its first two characters followed by the clock's milliseconds in base
    36, at the cost of two readings; the base-36 text reads back as the
    milliseconds, so two such ids with the same random text are equal
    exactly when the two clock readings are. *)
Theorem fallback_ids_tell_readings_apart (w w' : World) :
  crypto rt = CryptoThrows ->
  exists id id',
    Store.cryptoRandomId rt w = (Ok id, advance (advance w)) /\
    Store.cryptoRandomId rt w' = (Ok id', advance (advance w')) /\
    id = slice2 (random36 rt (tick w)) +:+ Number_toString 36 (clock_ms rt (S (tick w))) /\
    radix_value 36 (Number_toString 36 (clock_ms rt (S (tick w)))) 0
    = clock_ms rt (S (tick w)) /\
    (random36 rt (tick w) = random36 rt (tick w') ->
     (id = id' <-> clock_ms rt (S (tick w)) = clock_ms rt (S (tick w')))).
Proof.
  intros Hc. eexists _, _.
  split; [by apply cryptoRandomId_fallback |].
  split; [by apply cryptoRandomId_fallback |].
  split; [reflexivity |].
  split; [apply Number_toString_value; lia |].
  intros ->. split.
  - intros H. apply String.app_inj in H.
    apply (f_equal (fun s => radix_value 36 s 0)) in H.
    by rewrite !Number_toString_value in H by lia.
  - by intros ->.
Qed.

End FallbackIds.

(* ===================================================================== *)
(** * The form and the screens *)
(* ===================================================================== *)

Section Screens.

Variable rt : Runtime.
Variable trim : string -> string.

Lemma press_data (f : Form.Fields) (data : Form.Data) :
  Form.press trim f = Some data ->
  data = Form.onPress trim f /\ trim (Form.title f) <> EmptyString.
Proof.
  unfold Form.press, Form.disabled.
  destruct (trim (Form.title f)) as [|c r] eqn:E; cbn [String.length Nat.eqb];
    [discriminate |].
  intros [= <-]. split; [reflexivity | discriminate].
Qed.


(** X19. A press of the form's button in create mode stores a task whose
    title is the trimmed title, which is not empty, whose description is
    the trimmed description or is missing when that is empty, and whose
    [done] is the switch; the task is first in the collection and in the
    mirror, and the list screen is shown. A button pressed over a title
    that trims to nothing submits nothing. *)
Theorem form_creates_titled_task (f : Form.Fields) (data : Form.Data) (s : App.State) :
  App.editState s = App.ModeCreate ->
  Form.press trim f = Some data ->
  exists t s',
    App.submit rt data s = (Ok tt, s') /\
    App.screen s' = App.ScreenList /\
    Store.readAll (Session.world (App.hook s'))
    = (Ok (t :: stored (Session.world (App.hook s))), Session.world (App.hook s')) /\
    Session.tasks (Session.session (App.hook s'))
    = t :: Session.tasks (Session.session (App.hook s)) /\
    get t "title" = Ok (Some (JStr (trim (Form.title f)))) /\
    trim (Form.title f) <> EmptyString /\
    get t "description"
    = Ok (if String.eqb (trim (Form.description f)) EmptyString then None
          else Some (JStr (trim (Form.description f)))) /\
    get t "description" <> Ok (Some (JStr EmptyString)) /\
    get t "done" = Ok (Some (JBool (Form.done f))).
Proof.
  intros Hmode Hpress. apply press_data in Hpress as [-> Htitle].
  destruct (create_eval rt (App.as_input (Form.onPress trim f)) (Session.world (App.hook s)))
    as (id & w1 & _ & Hc). cbn zeta in Hc.
  destruct (new_task_fields id (clock_iso rt (tick (Session.world (App.hook s))))
              (App.as_input (Form.onPress trim f)))
    as (_ & Ht & Hd & _ & _ & Hdone).
  cbn zeta in *. cbn [App.as_input Form.onPress Form.d_title Form.d_description
                        Form.d_done Store.title Store.description Store.done default] in *.
  eexists _, _. split.
  { unfold App.submit, bind. rewrite Hmode. unfold App.on_hook.
    unfold Session.createTask, bind, Session.on_world, Session.setTasks.
    rewrite Hc. reflexivity. }
  cbn [App.screen App.hook Session.world Session.session Session.tasks].
  split; [reflexivity |]. split; [unfold Store.readAll; apply getAll_saveAll |].
  split; [reflexivity |]. split; [exact Ht |]. split; [exact Htitle |].
  assert (get (new_task id (clock_iso rt (tick (Session.world (App.hook s))))
                 (App.as_input (Form.onPress trim f))) "description"
          = Ok (if String.eqb (trim (Form.description f)) EmptyString then None
                else Some (JStr (trim (Form.description f))))) as Hd'.
  { cbn [App.as_input Form.onPress Form.d_title Form.d_description Form.d_done].
    rewrite Hd. by destruct (String.eqb (trim (Form.description f)) EmptyString). }
  split; [exact Hd' |]. split; [| exact Hdone].
  rewrite Hd'. destruct (String.eqb_spec (trim (Form.description f)) EmptyString) as [E | E];
    [discriminate | congruence].
Qed.



End Screens.

(* ===================================================================== *)
(** * The further properties at sample inputs *)
(* ===================================================================== *)

Lemma readById_finds_witness :
  fst (Store.readById Sample.first_web_id (Sample.two_tasks Sample.web))
  = Ok (List.find (has_id Sample.first_web_id) (stored (Sample.two_tasks Sample.web))).
Proof.
  destruct (readById_finds Sample.first_web_id (Sample.two_tasks Sample.web))
    as (_ & _ & _ & H).
  apply H. vm_compute. reflexivity.
Defined.

Lemma readById_other_after_create_witness :
  fst (Store.readById Sample.first_web_id
         (snd (Store.create Sample.web Sample.bread (Sample.one_task Sample.web))))
  = fst (Store.readById Sample.first_web_id (Sample.one_task Sample.web)).
Proof.
  apply readById_other_after_create.
  intros t H. vm_compute in H. injection H as <-. vm_compute. discriminate.
Defined.

Lemma readById_after_remove_witness :
  let w1 := snd (Store.remove Sample.first_web_id (Sample.two_tasks Sample.web)) in
  forallb (fun t => negb (has_id Sample.first_web_id t)) (stored w1) = true /\
  Store.readById Sample.first_web_id w1 = (Ok None, w1).
Proof.
  apply (readById_after_remove Sample.first_web_id (Sample.two_tasks Sample.web)).
  vm_compute. reflexivity.
Defined.

Lemma readById_other_after_remove_witness :
  fst (Store.readById "303132333435363738393a3b3c3d3e3f"
         (snd (Store.remove Sample.first_web_id (Sample.two_tasks Sample.web))))
  = fst (Store.readById "303132333435363738393a3b3c3d3e3f"
           (Sample.two_tasks Sample.web)).
Proof.
  apply readById_other_after_remove; [vm_compute; reflexivity | discriminate].
Defined.

Lemma remove_after_create_witness :
  exists t id w1 w2,
    Store.create Sample.web Sample.bread (Sample.one_task Sample.web) = (Ok t, w1) /\
    task_id t = Some id /\
    Store.remove id w1 = (Ok tt, w2) /\
    Store.readAll w2 = (Ok (stored (Sample.one_task Sample.web)), w2).
Proof.
  apply remove_after_create; [vm_compute; reflexivity |].
  intros t H id Hid. vm_compute in H. injection H as <-.
  vm_compute in Hid. injection Hid as <-. vm_compute. reflexivity.
Defined.

Lemma update_returns_a_match_witness :
  exists r w',
    Store.update Sample.web Sample.first_web_id Sample.mark_done
      (Sample.two_tasks Sample.web) = (Ok r, w') /\
    (forall t', r = Some t' ->
                task_id t' = Some Sample.first_web_id /\ In t' (stored w')).
Proof.
  destruct (update_returns_a_match Sample.web Sample.first_web_id Sample.mark_done
              (Sample.two_tasks Sample.web)) as (r & w' & Hu & _ & Hr);
    [vm_compute; reflexivity |].
  exists r, w'. split; [exact Hu | exact Hr].
Defined.

Lemma readById_other_after_update_witness :
  fst (Store.readById "303132333435363738393a3b3c3d3e3f"
         (snd (Store.update Sample.web Sample.first_web_id Sample.mark_done
                 (Sample.two_tasks Sample.web))))
  = fst (Store.readById "303132333435363738393a3b3c3d3e3f"
           (Sample.two_tasks Sample.web)).
Proof.
  apply readById_other_after_update; [vm_compute; reflexivity | discriminate].
Defined.

Lemma hex_ids_tell_draws_apart_witness :
  exists id id',
    Store.cryptoRandomId Sample.web Sample.empty_world
    = (Ok id, advance Sample.empty_world) /\
    Store.cryptoRandomId Sample.web (advance Sample.empty_world)
    = (Ok id', advance (advance Sample.empty_world)) /\
    String.length id = 32 /\
    (id = id' <-> drawn Sample.draw 0 = drawn Sample.draw 1).
Proof.
  destruct (hex_ids_tell_draws_apart Sample.web Sample.draw Sample.empty_world
              (advance Sample.empty_world) eq_refl)
    as (id & id' & H1 & H2 & Hl & _ & Hiff).
  exists id, id'. split; [exact H1 |]. split; [exact H2 |]. split; [exact Hl | exact Hiff].
Defined.

Lemma create_and_remove_keep_sync_witness :
  synced (snd (Session.createTask Sample.web Sample.bread
                 (Session.mount (Sample.one_task Sample.web))))
  /\ synced (snd (Session.removeTask Sample.first_web_id
                    (Session.mount (Sample.one_task Sample.web)))).
Proof. apply create_and_remove_keep_sync. apply mount_synced. Defined.

Lemma rejected_operations_change_nothing_witness :
  let a := Session.mount (Sample.world_with null_blob) in
  (exists e a',
     Session.updateTask Sample.web Sample.first_web_id Sample.mark_done a = (Throw e, a') /\
     disk (Session.world a') = disk (Session.world a) /\
     Session.session a' = Session.session a) /\
  (exists e, Session.removeTask Sample.first_web_id a = (Throw e, a)).
Proof.
  apply (rejected_operations_change_nothing Sample.web
           (Session.mount (Sample.world_with null_blob))).
  vm_compute. by left.
Defined.

Lemma pending_counts_the_rest_witness :
  exists s,
    Session.stats (stored (Sample.two_tasks Sample.web)) = Ok s /\
    Session.pending s
    = Z.of_nat (length (List.filter is_pending (stored (Sample.two_tasks Sample.web)))).
Proof. apply pending_counts_the_rest. vm_compute. reflexivity. Defined.

Lemma createTask_moves_the_counts_witness :
  let a := Session.mount (Sample.one_task Sample.web) in
  exists s s',
    Session.stats (Session.tasks (Session.session a)) = Ok s /\
    Session.stats
      (Session.tasks (Session.session (snd (Session.createTask Sample.web Sample.bread a))))
    = Ok s' /\
    Session.total s' = (Session.total s + 1)%Z.
Proof.
  intros a.
  destruct (createTask_moves_the_counts Sample.web Sample.bread a)
    as (s & s' & H & H' & Ht & _); [vm_compute; reflexivity |].
  exists s, s'. split; [exact H |]. split; [exact H' | exact Ht].
Defined.

Lemma fallback_ids_tell_readings_apart_witness :
  exists id,
    Store.cryptoRandomId throwing Sample.empty_world
    = (Ok id, advance (advance Sample.empty_world)) /\
    id = slice2 (random36 throwing 0) +:+ Number_toString 36 (clock_ms throwing 1).
Proof.
  destruct (fallback_ids_tell_readings_apart throwing Sample.empty_world
              Sample.empty_world eq_refl) as (id & _ & H & _ & E & _).
  exists id. split; [exact H | exact E].
Defined.

Lemma form_creates_titled_task_witness :
  exists t s',
    App.submit Sample.web (Form.onPress trim_spaces sample_fields)
      (app_on Sample.web Sample.empty_world App.ModeCreate) = (Ok tt, s') /\
    App.screen s' = App.ScreenList /\
    get t "title" = Ok (Some (JStr (trim_spaces (Form.title sample_fields)))) /\
    get t "description" <> Ok (Some (JStr EmptyString)).
Proof.
  destruct (form_creates_titled_task Sample.web trim_spaces sample_fields
              (Form.onPress trim_spaces sample_fields)
              (app_on Sample.web Sample.empty_world App.ModeCreate) eq_refl eq_refl)
    as (t & s' & Hs & Hscreen & _ & _ & Ht & _ & _ & Hd & _).
  exists t, s'. split; [exact Hs |]. split; [exact Hscreen |]. split; [exact Ht | exact Hd].
Defined.


